(** * auto_ec2_alarms: EC2 alarm derivation and batched submission

    A shallow embedding of [auto_ec2_alarms.py].  The AWS services the
    script talks to are a [World] of oracles; every client call is
    recorded, in order, in a trace of [event]s that is threaded through
    the code by a small state-and-exception monad.  Python exceptions
    are the [Raise] results of that monad.

    Strings are byte strings (UTF-8); [lower] lowers the letters A-Z.
    No character outside ASCII lowers to a letter of "linux" or
    "windows", so the platform tests agree with Python's [str.lower].

    Logger calls only write to the log file and the console; they take
    no part in the control flow and are left out of the trace. *)

From Stdlib Require Import String Ascii List ZArith Lia Bool Arith PeanoNat
  Permutation.
Import ListNotations.
Open Scope string_scope.
Open Scope list_scope.


(** ** Data *)

(** [{'Name': ..., 'Value': ...}] *)
Record Dimension := { DimName : string; DimValue : string }.

(** [{'Key': ..., 'Value': ...}] *)
Record Tag := { TagKey : string; TagValue : string }.

(** An instance as [describe_instances] returns it.  [InstanceId] and
    [InstanceType] are read with [instance[...]], the other keys with
    [instance.get]: they may be absent. *)
Record Instance := {
  InstanceId : string;
  InstanceType : string;
  Tags : option (list Tag);
  ImageId : option string;
  Platform : option string
}.

(** One entry of the ['Metrics'] list of a [list_metrics] response. *)
Record MetricSample := {
  SampleMetricName : string;
  SampleDimensions : list Dimension
}.

(** The keyword arguments of [put_metric_alarm]: the seven keys of
    [base_alarm] and the six keys each alarm adds. *)
Record Alarm := {
  ActionsEnabled : bool;
  AlarmActions : list string;
  OKActions : list string;
  Statistic : string;
  Period : Z;
  EvaluationPeriods : Z;
  TreatMissingData : string;
  AlarmName : string;
  MetricName : string;
  Namespace : string;
  Dimensions : list Dimension;
  Threshold : Z;
  ComparisonOperator : string
}.

Record Topic := { TopicArn : string }.

(** The session-bound CloudWatch client; only its region is read. *)
Record Client := { region_name : string }.

(** ** Exceptions, results, events *)

Inductive exn :=
| ValueError (msg : string)
| IndexError (msg : string)
| ClientError (operation : string) (code : string).

Inductive result (A : Type) :=
| Ok (a : A)
| Raise (e : exn).

Arguments Ok {A} a.
Arguments Raise {A} e.

(** The keyword arguments of [paginate] on [describe_instances]. *)
Inductive selection :=
| Filters (name : string) (values : list string)
| InstanceIds (ids : list string).

(** One client call.  Paginated calls carry the index of the page they
    fetch; creating and tagging carry whether the service accepted. *)
Inductive event :=
| EvListAccountAliases
| EvListTopics (page : nat)
| EvDescribeInstances (sel : selection) (page : nat)
| EvListMetrics (namespace : string) (dims : list Dimension)
| EvPutMetricAlarm (a : Alarm) (accepted : bool)
| EvGetCallerIdentity
| EvTagResource (arn : string) (tags : list Tag) (accepted : bool).

(** A paginated answer: the pages the service hands out, then either
    the end of the listing or an error on the next fetch. *)
Record paged (A : Type) := {
  pages : list A;
  failure : option exn
}.

Arguments pages {A} _.
Arguments failure {A} _.

(** The services.  ['AccountAliases'], ['Topics'] and ['Metrics'] are
    read with [.get]: [None] is a response without the key.  Creating,
    tagging, the caller identity and the clock may answer differently
    on each call: they see the calls made so far.  [worker_order] is
    the scheduling of the thread pool: given the calls made when the
    workers of a page are submitted, its n-th value picks, among the
    workers that have not run yet, the one whose call comes next. *)
Record World := {
  list_account_aliases : result (option (list string));
  list_topics : paged (option (list Topic));
  describe_instances : selection -> paged (list (list Instance));
  list_metrics : string -> list Dimension -> result (option (list MetricSample));
  put_metric_alarm : list event -> Alarm -> option exn;
  get_caller_identity : list event -> result string;
  tag_resource : list event -> string -> list Tag -> option exn;
  utcnow_date : list event -> string;
  worker_order : list event -> nat -> nat
}.

(** ** The monad: a trace of calls, and exceptions *)

Definition M (A : Type) : Type := list event -> result A * list event.

Definition ret {A} (a : A) : M A := fun tr => (Ok a, tr).

Definition raise {A} (e : exn) : M A := fun tr => (Raise e, tr).

Definition bind {A B} (m : M A) (k : A -> M B) : M B :=
  fun tr =>
    match m tr with
    | (Ok a, tr') => k a tr'
    | (Raise e, tr') => (Raise e, tr')
    end.

Notation "x <- m ;; k" := (bind m (fun x => k))
  (at level 61, m at next level, right associativity).
Notation "m ;;; k" := (bind m (fun _ => k))
  (at level 61, right associativity).

(** [try: m except Exception as e: h e] *)
Definition try_except {A} (m : M A) (h : exn -> M A) : M A :=
  fun tr =>
    match m tr with
    | (Ok a, tr') => (Ok a, tr')
    | (Raise e, tr') => h e tr'
    end.

Definition emit (e : event) : M unit := fun tr => (Ok tt, tr ++ [e]).

Definition history : M (list event) := fun tr => (Ok tr, tr).

Definition lift {A} (r : result A) : M A := fun tr => (r, tr).

(** [for x in l: body x] *)
Fixpoint for_each {A} (l : list A) (body : A -> M unit) : M unit :=
  match l with
  | [] => ret tt
  | x :: rest => body x ;;; for_each rest body
  end.

(** [for page in paginator.paginate(...)], the loop body updating an
    accumulator.  Each page is fetched when the loop reaches it. *)
Fixpoint for_pages {A St} (call : nat -> event) (ps : list A)
    (fail : option exn) (k : nat) (body : A -> St -> M St) (s : St) : M St :=
  match ps with
  | [] =>
      match fail with
      | Some e => emit (call k) ;;; raise e
      | None => ret s
      end
  | p :: rest =>
      emit (call k) ;;;
      s' <- body p s ;;
      for_pages call rest fail (S k) body s'
  end.

(** ** Python built-ins *)

Definition lower_ascii (c : ascii) : ascii :=
  let n := nat_of_ascii c in
  if (65 <=? n)%nat && (n <=? 90)%nat then ascii_of_nat (n + 32) else c.

(** [str.lower] *)
Fixpoint lower (s : string) : string :=
  match s with
  | EmptyString => EmptyString
  | String c rest => String (lower_ascii c) (lower rest)
  end.

(** [needle in hay] on strings *)
Fixpoint contains (needle hay : string) : bool :=
  String.prefix needle hay ||
  match hay with
  | EmptyString => false
  | String _ rest => contains needle rest
  end.

(** [not s] on a string *)
Definition str_falsy (s : string) : bool :=
  match s with EmptyString => true | _ => false end.

(** [not l] on a list *)
Definition list_falsy {A} (l : list A) : bool :=
  match l with [] => true | _ => false end.

(** [d.get(key, default)] *)
Definition get_default {A} (o : option A) (default : A) : A :=
  match o with Some a => a | None => default end.

(** [range(start, stop, step)] for a positive step; the loop runs at
    most [stop] times, which the fuel allows. *)
Fixpoint range_from (fuel i stop step : nat) : list nat :=
  match fuel with
  | O => []
  | S fuel' =>
      if (i <? stop)%nat then i :: range_from fuel' (i + step) stop step
      else []
  end.

Definition range (start stop step : nat) : list nat :=
  range_from stop start stop step.

(** [l[i:j]] for [0 <= i <= j] *)
Definition slice {A} (l : list A) (i j : nat) : list A :=
  firstn (j - i) (skipn i l).

(** ** The thread pool *)

(** A future: its worker is still to run, or it has returned or
    raised. *)
Inductive future (A : Type) :=
| Pending (task : M A)
| Done (r : result A).

Arguments Pending {A} task.
Arguments Done {A} r.

Fixpoint pending_count {A} (futures : list (future A)) : nat :=
  match futures with
  | [] => 0
  | Pending _ :: rest => S (pending_count rest)
  | Done _ :: rest => pending_count rest
  end.

(** The worker of the [k]-th pending future runs to its end; what it
    returns or raises goes into its future. *)
Fixpoint run_pending {A} (k : nat) (futures : list (future A))
    : M (list (future A)) :=
  match futures with
  | [] => ret []
  | Done r :: rest =>
      rest' <- run_pending k rest ;; ret (Done r :: rest')
  | Pending task :: rest =>
      match k with
      | O => fun tr => let (r, tr') := task tr in (Ok (Done r :: rest), tr')
      | S k' =>
          rest' <- run_pending k' rest ;; ret (Pending task :: rest')
      end
  end.

(** The workers run one after the other, each time the one the
    schedule picks among those still pending, until none is left; a
    pool of [fuel] futures needs [fuel] turns. *)
Fixpoint workers_run {A} (choice : nat -> nat) (fuel step : nat)
    (futures : list (future A)) : M (list (future A)) :=
  match fuel with
  | O => ret futures
  | S fuel' =>
      match pending_count futures with
      | O => ret futures
      | S n =>
          futures' <- run_pending (choice step mod S n) futures ;;
          workers_run choice fuel' (S step) futures'
      end
  end.

(** ** The script *)

Section Script.

(** The services, and the module globals that [__main__] sets and the
    functions read: [alarm_prefix] and [alarm_tag]. *)
Variable W : World.
Variables alarm_prefix alarm_tag : string.

(** [get_sns_topic_arn]: the inner loop over the topics of one page. *)
Fixpoint find_topic (topic_name : string) (topics : list Topic)
    : option string :=
  match topics with
  | [] => None
  | topic :: rest =>
      if contains topic_name (TopicArn topic) then Some (TopicArn topic)
      else find_topic topic_name rest
  end.

(** The loop over the pages; the first match returns. *)
Fixpoint scan_topic_pages (topic_name region : string)
    (ps : list (option (list Topic))) (fail : option exn) (k : nat)
    : M string :=
  match ps with
  | [] =>
      match fail with
      | Some e => emit (EvListTopics k) ;;; raise e
      | None =>
          raise (ValueError ("Topic '" ++ topic_name ++
                             "' not found in region " ++ region)%string)
      end
  | page :: rest =>
      emit (EvListTopics k) ;;;
      match find_topic topic_name (get_default page []) with
      | Some arn => ret arn
      | None => scan_topic_pages topic_name region rest fail (S k)
      end
  end.

(** The handler logs and re-raises. *)
Definition get_sns_topic_arn (topic_name region : string) : M string :=
  try_except
    (scan_topic_pages topic_name region
       (pages (list_topics W)) (failure (list_topics W)) 0)
    (fun e => raise e).

Definition sts_get_caller_identity : M string :=
  tr <- history ;;
  emit EvGetCallerIdentity ;;;
  lift (get_caller_identity W tr).

Definition cloudwatch_tag_resource (arn : string) (tags : list Tag)
    : M unit :=
  tr <- history ;;
  match tag_resource W tr arn tags with
  | None => emit (EvTagResource arn tags true)
  | Some e => emit (EvTagResource arn tags false) ;;; raise e
  end.

Definition cloudwatch_put_metric_alarm (alarm_config : Alarm) : M unit :=
  tr <- history ;;
  match put_metric_alarm W tr alarm_config with
  | None => emit (EvPutMetricAlarm alarm_config true)
  | Some e => emit (EvPutMetricAlarm alarm_config false) ;;; raise e
  end.

Definition datetime_utcnow_date : M string :=
  tr <- history ;; ret (utcnow_date W tr).

Definition tag_alarm (cloudwatch_client : Client) (alarm_name : string)
    (tags : list Tag) : M unit :=
  try_except
    (account <- sts_get_caller_identity ;;
     cloudwatch_tag_resource
       ("arn:aws:cloudwatch:" ++ region_name cloudwatch_client ++ ":" ++
        account ++ ":alarm:" ++ alarm_name)%string
       tags)
    (fun _ => ret tt).

(** The body of the loop of [create_cloudwatch_alarm_batch]. *)
Definition create_and_tag (cloudwatch_client : Client)
    (alarm_config : Alarm) : M unit :=
  try_except
    (cloudwatch_put_metric_alarm alarm_config ;;;
     date <- datetime_utcnow_date ;;
     tag_alarm cloudwatch_client (AlarmName alarm_config)
       [ {| TagKey := alarm_tag; TagValue := date |} ])
    (fun _ => ret tt).

Definition create_cloudwatch_alarm_batch (cloudwatch_client : Client)
    (alarms_config : list Alarm) : M unit :=
  for_each alarms_config (create_and_tag cloudwatch_client).

(** [{**base_alarm, 'AlarmName': ..., ...}] *)
Definition base_alarm (sns_topic_arn : string)
    (name metric namespace : string) (dims : list Dimension)
    (threshold : Z) (operator : string) : Alarm :=
  {| ActionsEnabled := true;
     AlarmActions := [sns_topic_arn];
     OKActions := [sns_topic_arn];
     Statistic := "Average";
     Period := 60;
     EvaluationPeriods := 5;
     TreatMissingData := "breaching";
     AlarmName := name;
     MetricName := metric;
     Namespace := namespace;
     Dimensions := dims;
     Threshold := threshold;
     ComparisonOperator := operator |}.

(** [next((tag['Value'] for tag in tags if tag['Key'] == 'Name'),
    'UnnamedInstance')] *)
Fixpoint name_tag (tags : list Tag) : string :=
  match tags with
  | [] => "UnnamedInstance"
  | tag :: rest =>
      if (TagKey tag =? "Name")%string then TagValue tag else name_tag rest
  end.

(** [instance_name] of [process_instance] *)
Definition instance_name_of (instance : Instance) : string :=
  name_tag (get_default (Tags instance) []).

(** [platform] of [process_instance] *)
Definition platform_of (instance : Instance) : string :=
  lower (get_default (Platform instance) "linux").

(** The f-string of every [AlarmName], up to the suffix. *)
Definition alarm_name (account_alias instance_name suffix : string)
    : string :=
  (alarm_prefix ++ "_" ++ account_alias ++ "_ec2_" ++ instance_name ++
   "_" ++ suffix)%string.

(** The inner loop over the dimensions of a [disk_used_percent]
    sample. *)
Definition disk_step (sns_topic_arn account_alias instance_name : string)
    (metric_name : string) (dimensions : list Dimension)
    (alarm_configs : list Alarm) (dimension : Dimension) : list Alarm :=
  if (DimName dimension =? "path")%string &&
     (DimValue dimension =? "/")%string
  then alarm_configs ++
       [ base_alarm sns_topic_arn
           (alarm_name account_alias instance_name "disk-used")
           metric_name "CWAgent" dimensions 95
           "GreaterThanOrEqualToThreshold" ]
  else alarm_configs.

(** The body of the loop over [metrics_available]. *)
Definition metric_step (sns_topic_arn account_alias instance_name : string)
    (alarm_configs : list Alarm) (metric : MetricSample) : list Alarm :=
  let metric_name := SampleMetricName metric in
  let dimensions := SampleDimensions metric in
  let alarm_configs :=
    if (metric_name =? "mem_used_percent")%string
    then alarm_configs ++
         [ base_alarm sns_topic_arn
             (alarm_name account_alias instance_name "mem-used")
             metric_name "CWAgent" dimensions 95
             "GreaterThanOrEqualToThreshold" ]
    else alarm_configs in
  if (metric_name =? "disk_used_percent")%string
  then fold_left
         (disk_step sns_topic_arn account_alias instance_name
            metric_name dimensions)
         dimensions alarm_configs
  else alarm_configs.

Definition metrics_list_metrics (namespace : string)
    (dims : list Dimension) : M (option (list MetricSample)) :=
  emit (EvListMetrics namespace dims) ;;;
  lift (list_metrics W namespace dims).

Definition process_instance (instance : Instance)
    (account_alias sns_topic_arn region : string) : M (list Alarm) :=
  let instance_id := InstanceId instance in
  let instance_type := InstanceType instance in
  let instance_name := instance_name_of instance in
  let image_id := get_default (ImageId instance) "UnknownImage" in
  let platform := platform_of instance in
  let alarm_configs :=
    [ base_alarm sns_topic_arn
        (alarm_name account_alias instance_name "status-check")
        "StatusCheckFailed" "AWS/EC2"
        [ {| DimName := "InstanceId"; DimValue := instance_id |} ]
        1 "GreaterThanOrEqualToThreshold";
      base_alarm sns_topic_arn
        (alarm_name account_alias instance_name "cpu-used")
        "CPUUtilization" "AWS/EC2"
        [ {| DimName := "InstanceId"; DimValue := instance_id |} ]
        95 "GreaterThanOrEqualToThreshold" ] in
  if (platform =? "linux")%string then
    metrics <- metrics_list_metrics "CWAgent"
                 [ {| DimName := "InstanceId"; DimValue := instance_id |} ] ;;
    let metrics_available := get_default metrics [] in
    ret (fold_left
           (metric_step sns_topic_arn account_alias instance_name)
           metrics_available alarm_configs)
  else if (platform =? "windows")%string then
    ret (alarm_configs ++
         [ base_alarm sns_topic_arn
             (alarm_name account_alias instance_name "mem-used")
             "Memory % Committed Bytes In Use" "CWAgent"
             [ {| DimName := "InstanceId"; DimValue := instance_id |};
               {| DimName := "ImageId"; DimValue := image_id |};
               {| DimName := "objectname"; DimValue := "Memory" |};
               {| DimName := "InstanceType"; DimValue := instance_type |} ]
             95 "GreaterThanOrEqualToThreshold";
           base_alarm sns_topic_arn
             (alarm_name account_alias instance_name "disk-used")
             "LogicalDisk % Free Space" "CWAgent"
             [ {| DimName := "InstanceId"; DimValue := instance_id |};
               {| DimName := "ImageId"; DimValue := image_id |};
               {| DimName := "objectname"; DimValue := "LogicalDisk" |};
               {| DimName := "InstanceType"; DimValue := instance_type |};
               {| DimName := "instance"; DimValue := "C:" |} ]
             5 "LessThanOrEqualToThreshold" ])
  else ret alarm_configs.

(** [for x in l: s = body s x], with an accumulator *)
Fixpoint fold_m {A St} (body : St -> A -> M St) (l : list A) (s : St)
    : M St :=
  match l with
  | [] => ret s
  | x :: rest => s' <- body s x ;; fold_m body rest s'
  end.

(** [executor.submit(task)]: a future whose worker is yet to run. *)
Definition executor_submit {A} (task : M A) : M (future A) :=
  ret (Pending task).

(** The workers of the pool.  They run concurrently with each other
    and with the main thread, which makes no call of its own between
    the first [submit] and the end of the [with] block: only the order
    of the workers' calls is open, and a worker makes at most one call,
    so the calls come worker by worker in the order [worker_order]
    decides.  Leaving the [with] block waits for every worker, also
    when a result has raised, so all of them run.  Every order is
    allowed here; with more than [max_workers=10] workers the pool has
    fewer. *)
Definition executor_workers {A} (futures : list (future A))
    : M (list (future A)) :=
  tr <- history ;;
  workers_run (worker_order W tr) (length futures) 0 futures.

(** [future.result()]: what the worker returned, or its exception. *)
Definition future_result {A} (f : future A) : M A :=
  match f with
  | Done r => lift r
  | Pending task => task
  end.

(** The body of the [with ThreadPoolExecutor] block, the same text in
    both selection modes: one worker per instance of every reservation
    of the page, then the results in submission order. *)
Definition process_page (account_alias sns_topic_arn region : string)
    (page : list (list Instance)) (all_alarm_configs : list Alarm)
    : M (list Alarm) :=
  futures <-
    fold_m
      (fun futures reservation =>
         fold_m
           (fun futures instance =>
              future <- executor_submit
                          (process_instance instance account_alias
                             sns_topic_arn region) ;;
              ret (futures ++ [future]))
           reservation futures)
      page [] ;;
  futures <- executor_workers futures ;;
  fold_m
    (fun all_alarm_configs future =>
       alarms <- future_result future ;;
       ret (all_alarm_configs ++ alarms))
    futures all_alarm_configs.

Definition paginate_describe_instances (sel : selection)
    (account_alias sns_topic_arn region : string)
    (all_alarm_configs : list Alarm) : M (list Alarm) :=
  for_pages (EvDescribeInstances sel)
    (pages (describe_instances W sel)) (failure (describe_instances W sel))
    0 (process_page account_alias sns_topic_arn region) all_alarm_configs.

Definition iam_list_account_aliases : M (option (list string)) :=
  emit EvListAccountAliases ;;; lift (list_account_aliases W).

(** [l[0]] *)
Definition index0 {A} (l : list A) : M A :=
  match l with
  | [] => raise (IndexError "list index out of range")
  | x :: _ => ret x
  end.

(** The loop that closes [create_ec2_alarms]. *)
Definition submit_in_batches (cloudwatch_client : Client)
    (all_alarm_configs : list Alarm) : M unit :=
  let batch_size := 10%nat in
  for_each (range 0 (length all_alarm_configs) batch_size)
    (fun i =>
       let batch := slice all_alarm_configs i (i + batch_size) in
       create_cloudwatch_alarm_batch cloudwatch_client batch).

Definition create_ec2_alarms (region sns_topic_name : string)
    (instance_ids : list string)
    (instance_tag_name instance_tag_value : string) : M unit :=
  let cloudwatch_client := {| region_name := region |} in
  aliases <- iam_list_account_aliases ;;
  account_alias <- index0 (get_default aliases ["default-account"]) ;;
  sns_topic_arn <- get_sns_topic_arn sns_topic_name region ;;
  let all_alarm_configs := [] in
  if list_falsy instance_ids &&
     (str_falsy instance_tag_name || str_falsy instance_tag_value)
  then
    raise (ValueError
      "You must provide either instance_ids or both instance_tag_name and instance_tag_value.")
  else
    all_alarm_configs <-
      (if list_falsy instance_ids then
         let filters :=
           Filters ("tag:" ++ instance_tag_name)%string
             [instance_tag_value] in
         paginate_describe_instances filters account_alias sns_topic_arn
           region all_alarm_configs
       else
         paginate_describe_instances (InstanceIds instance_ids)
           account_alias sns_topic_arn region all_alarm_configs) ;;
    submit_in_batches cloudwatch_client all_alarm_configs.

End Script.

(** The run of [__main__]: the script starts with no call made. *)
Definition run {A} (m : M A) : result A * list event := m [].

(** ** Reading results and traces *)

(** The alarm definitions a call hands back; none when it raised. *)
Definition emitted (r : result (list Alarm)) : list Alarm :=
  match r with Ok l => l | Raise _ => [] end.

(** The samples the catalog returns for an instance; none when the
    call failed or the response has no ['Metrics']. *)
Definition catalog_samples (W : World) (instance_id : string)
    : list MetricSample :=
  match list_metrics W "CWAgent"
          [ {| DimName := "InstanceId"; DimValue := instance_id |} ] with
  | Ok metrics => get_default metrics []
  | Raise _ => []
  end.

(** A sample has a dimension [path] with value [/]. *)
Definition has_root_path (m : MetricSample) : Prop :=
  exists d, In d (SampleDimensions m) /\
            DimName d = "path" /\ DimValue d = "/".

(** The alarms [put_metric_alarm] was called with, in order. *)
Fixpoint put_attempts (tr : list event) : list Alarm :=
  match tr with
  | [] => []
  | EvPutMetricAlarm a _ :: rest => a :: put_attempts rest
  | _ :: rest => put_attempts rest
  end.

(** The calls that resolve the alias and the topic. *)
Definition resolves (e : event) : Prop :=
  match e with
  | EvListAccountAliases | EvListTopics _ => True
  | _ => False
  end.

(** The calls that discover instances and their metrics. *)
Definition discovers (e : event) : Prop :=
  match e with
  | EvDescribeInstances _ _ | EvListMetrics _ _ => True
  | _ => False
  end.

(** The calls that create and tag alarms. *)
Definition submits (e : event) : Prop :=
  match e with
  | EvPutMetricAlarm _ _ | EvGetCallerIdentity | EvTagResource _ _ _ => True
  | _ => False
  end.

(** A computation only appends calls, all of them satisfying [P]. *)
Definition emits {A} (P : event -> Prop) (m : M A) : Prop :=
  forall tr, exists ev, snd (m tr) = tr ++ ev /\ Forall P ev.

(** The catalog call a worker makes for an instance. *)
Definition catalog_calls (instance : Instance) : list event :=
  if (platform_of instance =? "linux")%string
  then [ EvListMetrics "CWAgent"
           [ {| DimName := "InstanceId";
                DimValue := InstanceId instance |} ] ]
  else [].

(** The batches [submit_in_batches] passes on, in order. *)
Definition batches {A} (l : list A) : list (list A) :=
  map (fun i => slice l i (i + 10)) (range 0 (length l) 10).

(** The selection [create_ec2_alarms] discovers with. *)
Definition selection_of (instance_ids : list string)
    (instance_tag_name instance_tag_value : string) : selection :=
  if list_falsy instance_ids
  then Filters ("tag:" ++ instance_tag_name)%string [instance_tag_value]
  else InstanceIds instance_ids.

(** The run survives a catalog failure: it ends without an exception. *)
Definition run_completes (out : result unit * list event) : Prop :=
  fst out = Ok tt.

(** ** What the loops of [process_instance] add up to *)

(** The alarms one dimension of a [disk_used_percent] sample adds. *)
Definition dimension_alarms (alarm_prefix sns_topic_arn account_alias
    instance_name metric_name : string) (dimensions : list Dimension)
    (dimension : Dimension) : list Alarm :=
  disk_step alarm_prefix sns_topic_arn account_alias instance_name
    metric_name dimensions [] dimension.

(** The alarms one sample of the catalog adds. *)
Definition sample_alarms (alarm_prefix sns_topic_arn account_alias
    instance_name : string) (metric : MetricSample) : list Alarm :=
  metric_step alarm_prefix sns_topic_arn account_alias instance_name
    [] metric.

(** The two alarms every instance gets. *)
Definition baseline (alarm_prefix sns_topic_arn account_alias : string)
    (instance : Instance) : list Alarm :=
  [ base_alarm sns_topic_arn
      (alarm_name alarm_prefix account_alias (instance_name_of instance)
         "status-check")
      "StatusCheckFailed" "AWS/EC2"
      [ {| DimName := "InstanceId"; DimValue := InstanceId instance |} ]
      1 "GreaterThanOrEqualToThreshold";
    base_alarm sns_topic_arn
      (alarm_name alarm_prefix account_alias (instance_name_of instance)
         "cpu-used")
      "CPUUtilization" "AWS/EC2"
      [ {| DimName := "InstanceId"; DimValue := InstanceId instance |} ]
      95 "GreaterThanOrEqualToThreshold" ].

(** ** What submitting one alarm adds to the trace *)

(** The calls of [tag_alarm] for an alarm created at history [tr]. *)
Definition tagging_events (W : World) (alarm_tag : string)
    (cloudwatch_client : Client) (a : Alarm) (tr : list event)
    : list event :=
  EvGetCallerIdentity ::
  match get_caller_identity W tr with
  | Raise _ => []
  | Ok account =>
      let arn := ("arn:aws:cloudwatch:" ++ region_name cloudwatch_client ++
                  ":" ++ account ++ ":alarm:" ++ AlarmName a)%string in
      let tags := [ {| TagKey := alarm_tag;
                       TagValue := utcnow_date W tr |} ] in
      [ EvTagResource arn tags
          (match tag_resource W (tr ++ [EvGetCallerIdentity]) arn tags with
           | None => true
           | Some _ => false
           end) ]
  end.

(** The calls of one turn of the loop of
    [create_cloudwatch_alarm_batch], entered at history [tr]. *)
Definition create_events (W : World) (alarm_tag : string)
    (cloudwatch_client : Client) (a : Alarm) (tr : list event)
    : list event :=
  match put_metric_alarm W tr a with
  | Some _ => [EvPutMetricAlarm a false]
  | None =>
      EvPutMetricAlarm a true ::
      tagging_events W alarm_tag cloudwatch_client a
        (tr ++ [EvPutMetricAlarm a true])
  end.

(** The calls of [tag_alarm]. *)
Definition tags_only (e : event) : Prop :=
  match e with
  | EvGetCallerIdentity | EvTagResource _ _ _ => True
  | _ => False
  end.

(** ** Collecting the futures of a page *)

(** What the future of an instance holds: the result of its worker. *)
Definition outcome (W : World) (alarm_prefix account_alias sns_topic_arn
    region : string) (instance : Instance) : result (list Alarm) :=
  fst (process_instance W alarm_prefix instance account_alias
         sns_topic_arn region []).

(** The loop over [futures]: the first exception ends it. *)
Fixpoint gather (futures : list (result (list Alarm)))
    (all_alarm_configs : list Alarm) : result (list Alarm) :=
  match futures with
  | [] => Ok all_alarm_configs
  | Ok alarms :: rest => gather rest (all_alarm_configs ++ alarms)
  | Raise e :: _ => Raise e
  end.

(** ** Sample accounts *)

Definition web1 : Instance :=
  {| InstanceId := "i-0a1"; InstanceType := "t3.micro";
     Tags := Some [ {| TagKey := "gl_env"; TagValue := "prod" |};
                    {| TagKey := "Name"; TagValue := "web1" |} ];
     ImageId := Some "ami-01"; Platform := None |}.

Definition web2 : Instance :=
  {| InstanceId := "i-0a2"; InstanceType := "t3.micro";
     Tags := Some [ {| TagKey := "Name"; TagValue := "web1" |} ];
     ImageId := Some "ami-01"; Platform := None |}.

Definition db1 : Instance :=
  {| InstanceId := "i-0b1"; InstanceType := "m5.large";
     Tags := Some [ {| TagKey := "Name"; TagValue := "db1" |} ];
     ImageId := None; Platform := Some "windows" |}.

Definition bsd1 : Instance :=
  {| InstanceId := "i-0c1"; InstanceType := "t3.small";
     Tags := None; ImageId := None; Platform := Some "FreeBSD" |}.

Definition root_disk : MetricSample :=
  {| SampleMetricName := "disk_used_percent";
     SampleDimensions :=
       [ {| DimName := "InstanceId"; DimValue := "i-0a1" |};
         {| DimName := "path"; DimValue := "/" |} ] |}.

Definition data_disk : MetricSample :=
  {| SampleMetricName := "disk_used_percent";
     SampleDimensions :=
       [ {| DimName := "InstanceId"; DimValue := "i-0a2" |};
         {| DimName := "path"; DimValue := "/data" |} ] |}.

Definition memory : MetricSample :=
  {| SampleMetricName := "mem_used_percent";
     SampleDimensions :=
       [ {| DimName := "InstanceId"; DimValue := "i-0a1" |} ] |}.

(** The catalog of account acme: the agent of i-0a1 reports memory and
    the root disk, the agent of i-0a2 a data disk only. *)
Definition acme_metrics (namespace : string) (dims : list Dimension)
    : result (option (list MetricSample)) :=
  match dims with
  | [ d ] =>
      if (DimValue d =? "i-0a1")%string then Ok (Some [memory; root_disk])
      else if (DimValue d =? "i-0a2")%string then Ok (Some [data_disk])
      else Ok None
  | _ => Ok (Some [])
  end.

(** The same catalog, failing for i-0a1. *)
Definition failing_metrics (namespace : string) (dims : list Dimension)
    : result (option (list MetricSample)) :=
  match dims with
  | [ d ] =>
      if (DimValue d =? "i-0a1")%string
      then Raise (ClientError "ListMetrics" "InternalServiceFault")
      else Ok (Some [])
  | _ => Ok (Some [])
  end.

Definition make_world
    (aliases : result (option (list string)))
    (metrics : string -> list Dimension ->
               result (option (list MetricSample)))
    (put : list event -> Alarm -> option exn)
    (tag : list event -> string -> list Tag -> option exn) : World :=
  {| list_account_aliases := aliases;
     list_topics :=
       {| pages :=
            [ Some [ {| TopicArn := "arn:aws:sns:us-east-1:111122223333:Billing" |} ];
              Some [ {| TopicArn := "arn:aws:sns:us-east-1:111122223333:Infrastructure_Topic" |} ] ];
          failure := None |};
     describe_instances := fun _ =>
       {| pages := [ [ [web1; web2]; [db1] ]; [ [bsd1] ] ];
          failure := None |};
     list_metrics := metrics;
     put_metric_alarm := put;
     get_caller_identity := fun _ => Ok "111122223333";
     tag_resource := tag;
     utcnow_date := fun _ => "2024-05-01";
     worker_order := fun _ _ => 0 |}.

(** Account acme, every service answering. *)
Definition acme : World :=
  make_world (Ok (Some ["acme"])) acme_metrics
    (fun _ _ => None) (fun _ _ _ => None).

(** Account acme with the catalog failing for i-0a1. *)
Definition acme_catalog_down : World :=
  make_world (Ok (Some ["acme"])) failing_metrics
    (fun _ _ => None) (fun _ _ _ => None).

(** An account without an alias: IAM answers with an empty list. *)
Definition no_alias : World :=
  make_world (Ok (Some [])) acme_metrics
    (fun _ _ => None) (fun _ _ _ => None).

(** Account acme where creating the cpu alarm of web1 is refused and
    tagging the status-check alarm of db1 is refused. *)
Definition acme_flaky : World :=
  make_world (Ok (Some ["acme"])) acme_metrics
    (fun _ a =>
       if (AlarmName a =? "gl_acme_ec2_web1_cpu-used")%string
       then Some (ClientError "PutMetricAlarm" "LimitExceeded")
       else None)
    (fun _ arn _ =>
       if (arn =? "arn:aws:cloudwatch:us-east-1:111122223333:alarm:gl_acme_ec2_db1_status-check")%string
       then Some (ClientError "TagResource" "Throttling")
       else None).

(** The run of [__main__] in a world, with the globals it sets. *)
Definition main (W : World) (instance_ids : list string)
    (instance_tag_name instance_tag_value : string)
    : result unit * list event :=
  run (create_ec2_alarms W "gl" "gl_monitoring" "us-east-1"
         "Infrastructure_Topic" instance_ids
         instance_tag_name instance_tag_value).

(** ** Reading more of the results and traces *)

(** The topics of the pages of a listing, in order. *)
Definition listed_topics (ps : list (option (list Topic))) : list Topic :=
  flat_map (fun page => get_default page []) ps.

(** The ARN of a topic does not contain the name. *)
Definition no_match (topic_name : string) (topic : Topic) : Prop :=
  contains topic_name (TopicArn topic) = false.

Definition is_accepted_put (e : event) : bool :=
  match e with EvPutMetricAlarm _ true => true | _ => false end.

Definition is_identity_call (e : event) : bool :=
  match e with EvGetCallerIdentity => true | _ => false end.

Definition is_tag_call (e : event) : bool :=
  match e with EvTagResource _ _ _ => true | _ => false end.

(** How many calls of a trace pass a test. *)
Definition count (f : event -> bool) (tr : list event) : nat :=
  length (filter f tr).

(** A tagging call names an alarm of the list in the region of the
    client and carries the one provenance tag. *)
Definition well_tagged (alarm_tag : string) (cloudwatch_client : Client)
    (alarms : list Alarm) (e : event) : Prop :=
  match e with
  | EvTagResource arn tags _ =>
      exists a account date,
        In a alarms /\
        arn = ("arn:aws:cloudwatch:" ++ region_name cloudwatch_client ++
               ":" ++ account ++ ":alarm:" ++ AlarmName a)%string /\
        tags = [ {| TagKey := alarm_tag; TagValue := date |} ]
  | _ => True
  end.

Definition is_root_path (d : Dimension) : bool :=
  (DimName d =? "path")%string && (DimValue d =? "/")%string.

(** How many alarms a sample of the catalog stands for. *)
Definition sample_alarm_count (m : MetricSample) : nat :=
  (if (SampleMetricName m =? "mem_used_percent")%string then 1 else 0) +
  (if (SampleMetricName m =? "disk_used_percent")%string
   then length (filter is_root_path (SampleDimensions m)) else 0).

(** The parameters every alarm takes from [base_alarm]. *)
Definition shared_parameters (sns_topic_arn : string) (a : Alarm) : Prop :=
  ActionsEnabled a = true /\
  AlarmActions a = [sns_topic_arn] /\
  OKActions a = [sns_topic_arn] /\
  Statistic a = "Average" /\
  Period a = 60%Z /\
  EvaluationPeriods a = 5%Z /\
  TreatMissingData a = "breaching".

(** The calls of a discovery in which every worker returns: page after
    page, the fetch and then the catalog calls of the instances of the
    page in some order. *)
Fixpoint discovery_trace (sel : selection) (k : nat)
    (ps : list (list (list Instance))) (d : list event) : Prop :=
  match ps with
  | [] => d = []
  | page :: rest =>
      exists order d',
        Permutation order (concat page) /\
        d = EvDescribeInstances sel k ::
            flat_map catalog_calls order ++ d' /\
        discovery_trace sel (S k) rest d'
  end.

(** The instances a selection discovers, in order. *)
Definition discovered (W : World) (sel : selection) : list Instance :=
  concat (concat (pages (describe_instances W sel))).

(** A discovery call is made with the given selection. *)
Definition describes_with (sel : selection) (e : event) : Prop :=
  match e with
  | EvDescribeInstances sel' _ => sel' = sel
  | _ => True
  end.

(** The loop over the pages without the calls: page after page the
    futures are collected, then the listing ends or fails. *)
Fixpoint gather_pages (outcome : Instance -> result (list Alarm))
    (ps : list (list (list Instance))) (fail : option exn)
    (all : list Alarm) : result (list Alarm) :=
  match ps with
  | [] =>
      match fail with
      | Some e => Raise e
      | None => Ok all
      end
  | page :: rest =>
      match gather (map outcome (concat page)) all with
      | Ok all' => gather_pages outcome rest fail all'
      | Raise e => Raise e
      end
  end.

(** ** The order of the workers *)

Fixpoint remove_nth {A} (k : nat) (l : list A) : list A :=
  match l, k with
  | [], _ => []
  | _ :: rest, O => rest
  | x :: rest, S k' => x :: remove_nth k' rest
  end.

(** The order a schedule puts a list of workers in. *)
Fixpoint pick_order {A} (choice : nat -> nat) (fuel step : nat)
    (pending : list A) : list A :=
  match fuel with
  | O => []
  | S fuel' =>
      match pending with
      | [] => []
      | x :: _ =>
          let k := choice step mod length pending in
          nth k pending x ::
          pick_order choice fuel' (S step) (remove_nth k pending)
      end
  end.

(** The order in which the workers of a page call the catalog, for a
    pool started at history [tr]. *)
Definition page_order (W : World) (tr : list event)
    (page : list (list Instance)) : list Instance :=
  pick_order (worker_order W tr) (length (concat page)) 0 (concat page).

(** A pool of workers of [process_instance]: the instances, each with
    whether its worker has run. *)
Definition pool_futures (W : World) (alarm_prefix account_alias
    sns_topic_arn region : string) (st : list (Instance * bool))
    : list (future (list Alarm)) :=
  map (fun x : Instance * bool =>
         if snd x
         then Done (outcome W alarm_prefix account_alias sns_topic_arn
                      region (fst x))
         else Pending (process_instance W alarm_prefix (fst x)
                         account_alias sns_topic_arn region))
    st.

Definition pool_pending (st : list (Instance * bool)) : list Instance :=
  map fst (filter (fun x : Instance * bool => negb (snd x)) st).

Fixpoint pool_mark (k : nat) (st : list (Instance * bool))
    : list (Instance * bool) :=
  match st with
  | [] => []
  | (i, true) :: rest => (i, true) :: pool_mark k rest
  | (i, false) :: rest =>
      match k with
      | O => (i, true) :: rest
      | S k' => (i, false) :: pool_mark k' rest
      end
  end.

(** After a refused or accepted turn, what follows is the create call
    of the next alarm, or nothing when no alarm is left. *)
Definition next_turn (after : list event) (rest : list Alarm) : Prop :=
  match rest with
  | [] => after = []
  | a :: _ => exists accepted more,
                after = EvPutMetricAlarm a accepted :: more
  end.

(** ** The script as shipped *)

(** The [__main__] block: the globals and arguments it sets, and its
    handler, which logs the exception and lets the script end. *)
Definition script_main (W : World) : M unit :=
  try_except
    (create_ec2_alarms W "gl" "gl_monitoring" "us-east-1"
       "Infrastructure_Topic" [] "gl_env" "prod")
    (fun _ => ret tt).

(** ** More sample accounts *)

(** A world with another discovery. *)
Definition with_describe (W : World)
    (describe : selection -> paged (list (list Instance))) : World :=
  {| list_account_aliases := list_account_aliases W;
     list_topics := list_topics W;
     describe_instances := describe;
     list_metrics := list_metrics W;
     put_metric_alarm := put_metric_alarm W;
     get_caller_identity := get_caller_identity W;
     tag_resource := tag_resource W;
     utcnow_date := utcnow_date W;
     worker_order := worker_order W |}.

(** A world with another topic listing. *)
Definition with_topics (W : World)
    (topics : paged (option (list Topic))) : World :=
  {| list_account_aliases := list_account_aliases W;
     list_topics := topics;
     describe_instances := describe_instances W;
     list_metrics := list_metrics W;
     put_metric_alarm := put_metric_alarm W;
     get_caller_identity := get_caller_identity W;
     tag_resource := tag_resource W;
     utcnow_date := utcnow_date W;
     worker_order := worker_order W |}.

(** A world with another scheduling of the thread pool. *)
Definition with_worker_order (W : World)
    (order : list event -> nat -> nat) : World :=
  {| list_account_aliases := list_account_aliases W;
     list_topics := list_topics W;
     describe_instances := describe_instances W;
     list_metrics := list_metrics W;
     put_metric_alarm := put_metric_alarm W;
     get_caller_identity := get_caller_identity W;
     tag_resource := tag_resource W;
     utcnow_date := utcnow_date W;
     worker_order := order |}.

(** A world with another caller identity. *)
Definition with_identity (W : World)
    (identity : list event -> result string) : World :=
  {| list_account_aliases := list_account_aliases W;
     list_topics := list_topics W;
     describe_instances := describe_instances W;
     list_metrics := list_metrics W;
     put_metric_alarm := put_metric_alarm W;
     get_caller_identity := identity;
     tag_resource := tag_resource W;
     utcnow_date := utcnow_date W;
     worker_order := worker_order W |}.

(** Account acme with the discovery throttled after its first page. *)
Definition acme_throttled : World :=
  with_describe acme (fun _ =>
    {| pages := [ [ [web2]; [db1] ] ];
       failure := Some (ClientError "DescribeInstances"
                          "RequestLimitExceeded") |}).

(** Account acme with the catalog failing for i-0a1 and a pool whose
    workers call in the reverse of the order of submission. *)
Definition acme_catalog_down_reversed : World :=
  with_worker_order acme_catalog_down (fun _ step => 2 - step).

(** Account acme with the topic listing failing after its first page. *)
Definition acme_topics_down : World :=
  with_topics acme
    {| pages :=
         [ Some [ {| TopicArn := "arn:aws:sns:us-east-1:111122223333:Billing" |} ] ];
       failure := Some (ClientError "ListTopics" "InternalError") |}.

(** Account acme with STS refusing to name the caller. *)
Definition acme_anonymous : World :=
  with_identity acme
    (fun _ => Raise (ClientError "GetCallerIdentity" "ExpiredToken")).

(** A catalog with two memory samples that differ in their
    dimensions, as the agent reports them with and without the image. *)
Definition memory_by_image : MetricSample :=
  {| SampleMetricName := "mem_used_percent";
     SampleDimensions :=
       [ {| DimName := "InstanceId"; DimValue := "i-0a1" |};
         {| DimName := "ImageId"; DimValue := "ami-01" |} ] |}.

Definition acme_two_memories : World :=
  make_world (Ok (Some ["acme"]))
    (fun _ _ => Ok (Some [memory; memory_by_image]))
    (fun _ _ => None) (fun _ _ _ => None).

(** * Properties *)

(** ** Strings *)

Lemma append_cancel_l (s a b : string) :
  (s ++ a)%string = (s ++ b)%string -> a = b.
Proof.
  induction s as [|c s IH]; simpl; intros H.
  - exact H.
  - injection H as H. auto.
Qed.

Lemma alarm_name_suffix_inj (p a n s1 s2 : string) :
  alarm_name p a n s1 = alarm_name p a n s2 -> s1 = s2.
Proof.
  unfold alarm_name. intros H.
  repeat (apply append_cancel_l in H).
  exact H.
Qed.

(** ** The loops of [process_instance] in closed form *)

Section Loops.

Variables p sns alias name : string.

Lemma disk_step_acc mn ds acc d :
  disk_step p sns alias name mn ds acc d =
  acc ++ dimension_alarms p sns alias name mn ds d.
Proof.
  unfold dimension_alarms, disk_step.
  destruct (_ && _); [reflexivity | now rewrite app_nil_r].
Qed.

Lemma disk_loop mn ds dims acc :
  fold_left (disk_step p sns alias name mn ds) dims acc =
  acc ++ flat_map (dimension_alarms p sns alias name mn ds) dims.
Proof.
  revert acc. induction dims as [|d dims IH]; intros acc; simpl.
  - now rewrite app_nil_r.
  - rewrite IH, disk_step_acc, <- app_assoc. reflexivity.
Qed.

Lemma metric_step_acc acc m :
  metric_step p sns alias name acc m =
  acc ++ sample_alarms p sns alias name m.
Proof.
  unfold sample_alarms, metric_step.
  destruct (SampleMetricName m =? "mem_used_percent")%string;
    destruct (SampleMetricName m =? "disk_used_percent")%string;
    simpl; rewrite ?disk_loop, ?app_nil_r; try reflexivity.
  now rewrite <- app_assoc.
Qed.

Lemma metric_loop ms acc :
  fold_left (metric_step p sns alias name) ms acc =
  acc ++ flat_map (sample_alarms p sns alias name) ms.
Proof.
  revert acc. induction ms as [|m ms IH]; intros acc; simpl.
  - now rewrite app_nil_r.
  - rewrite IH, metric_step_acc, <- app_assoc. reflexivity.
Qed.

(** What a sample adds, read off its name and dimensions. *)
Lemma sample_alarms_eq m :
  sample_alarms p sns alias name m =
  (if (SampleMetricName m =? "mem_used_percent")%string
   then [ base_alarm sns (alarm_name p alias name "mem-used")
            (SampleMetricName m) "CWAgent" (SampleDimensions m) 95
            "GreaterThanOrEqualToThreshold" ]
   else []) ++
  (if (SampleMetricName m =? "disk_used_percent")%string
   then flat_map
          (dimension_alarms p sns alias name (SampleMetricName m)
             (SampleDimensions m))
          (SampleDimensions m)
   else []).
Proof.
  unfold sample_alarms, metric_step.
  destruct (SampleMetricName m =? "mem_used_percent")%string;
    destruct (SampleMetricName m =? "disk_used_percent")%string;
    simpl; rewrite ?disk_loop; reflexivity.
Qed.

Lemma dimension_alarms_eq mn ds d :
  dimension_alarms p sns alias name mn ds d =
  if (DimName d =? "path")%string && (DimValue d =? "/")%string
  then [ base_alarm sns (alarm_name p alias name "disk-used")
           mn "CWAgent" ds 95 "GreaterThanOrEqualToThreshold" ]
  else [].
Proof. reflexivity. Qed.

End Loops.

(** ** [process_instance], branch by branch *)

Section RuleEngine.

Variable W : World.
Variables p alias sns region : string.
Variable i : Instance.

Lemma process_instance_linux tr :
  platform_of i = "linux" ->
  process_instance W p i alias sns region tr =
  (match list_metrics W "CWAgent"
           [ {| DimName := "InstanceId"; DimValue := InstanceId i |} ] with
   | Ok metrics =>
       Ok (baseline p sns alias i ++
           flat_map (sample_alarms p sns alias (instance_name_of i))
             (get_default metrics []))
   | Raise e => Raise e
   end,
   tr ++ [ EvListMetrics "CWAgent"
             [ {| DimName := "InstanceId"; DimValue := InstanceId i |} ] ]).
Proof.
  intros Hp. unfold process_instance. rewrite Hp.
  change ("linux" =? "linux")%string with true. cbv iota.
  unfold bind, metrics_list_metrics, bind, emit, lift, ret.
  destruct (list_metrics W _ _) as [metrics|e]; [|reflexivity].
  rewrite metric_loop. reflexivity.
Qed.

Lemma process_instance_windows tr :
  platform_of i = "windows" ->
  process_instance W p i alias sns region tr =
  (Ok (baseline p sns alias i ++
       [ base_alarm sns
           (alarm_name p alias (instance_name_of i) "mem-used")
           "Memory % Committed Bytes In Use" "CWAgent"
           [ {| DimName := "InstanceId"; DimValue := InstanceId i |};
             {| DimName := "ImageId";
                DimValue := get_default (ImageId i) "UnknownImage" |};
             {| DimName := "objectname"; DimValue := "Memory" |};
             {| DimName := "InstanceType"; DimValue := InstanceType i |} ]
           95 "GreaterThanOrEqualToThreshold";
         base_alarm sns
           (alarm_name p alias (instance_name_of i) "disk-used")
           "LogicalDisk % Free Space" "CWAgent"
           [ {| DimName := "InstanceId"; DimValue := InstanceId i |};
             {| DimName := "ImageId";
                DimValue := get_default (ImageId i) "UnknownImage" |};
             {| DimName := "objectname"; DimValue := "LogicalDisk" |};
             {| DimName := "InstanceType"; DimValue := InstanceType i |};
             {| DimName := "instance"; DimValue := "C:" |} ]
           5 "LessThanOrEqualToThreshold" ]),
   tr).
Proof.
  intros Hp. unfold process_instance. rewrite Hp.
  change ("windows" =? "linux")%string with false.
  change ("windows" =? "windows")%string with true.
  reflexivity.
Qed.

Lemma process_instance_other tr :
  platform_of i <> "linux" ->
  platform_of i <> "windows" ->
  process_instance W p i alias sns region tr =
  (Ok (baseline p sns alias i), tr).
Proof.
  intros Hl Hw. unfold process_instance.
  apply String.eqb_neq in Hl, Hw. rewrite Hl, Hw. reflexivity.
Qed.

(** The result of a worker does not depend on the calls made before. *)
Lemma process_instance_result tr tr' :
  fst (process_instance W p i alias sns region tr) =
  fst (process_instance W p i alias sns region tr').
Proof.
  destruct (String.eqb_spec (platform_of i) "linux") as [Hl|Hl].
  - now rewrite !process_instance_linux.
  - destruct (String.eqb_spec (platform_of i) "windows") as [Hw|Hw].
    + now rewrite !process_instance_windows.
    + now rewrite !process_instance_other.
Qed.

(** The calls of a worker are its catalog call, if any. *)
Lemma process_instance_trace tr :
  snd (process_instance W p i alias sns region tr) =
  tr ++ catalog_calls i.
Proof.
  unfold catalog_calls.
  destruct (String.eqb_spec (platform_of i) "linux") as [Hl|Hl].
  - now rewrite process_instance_linux.
  - destruct (String.eqb_spec (platform_of i) "windows") as [Hw|Hw].
    + rewrite process_instance_windows by assumption.
      simpl. now rewrite app_nil_r.
    + rewrite process_instance_other by assumption.
      simpl. now rewrite app_nil_r.
Qed.

End RuleEngine.

(** C4. For every instance whose platform is windows the rule engine
    returns exactly four alarm definitions, status-check, cpu-used,
    mem-used and disk-used in that order, whatever the metric catalog
    holds and without calling it (the trace is unchanged); the
    disk-used definition has threshold 5 and the operator <=, the other
    three have the operator >=. *)
Theorem windows_four_alarms (W : World) (p alias sns region : string)
    (i : Instance) (tr : list event) :
  platform_of i = "windows" ->
  exists status cpu mem disk,
    process_instance W p i alias sns region tr =
      (Ok [status; cpu; mem; disk], tr) /\
    AlarmName status =
      alarm_name p alias (instance_name_of i) "status-check" /\
    AlarmName cpu = alarm_name p alias (instance_name_of i) "cpu-used" /\
    AlarmName mem = alarm_name p alias (instance_name_of i) "mem-used" /\
    AlarmName disk = alarm_name p alias (instance_name_of i) "disk-used" /\
    Threshold disk = 5%Z /\
    ComparisonOperator disk = "LessThanOrEqualToThreshold" /\
    ComparisonOperator status = "GreaterThanOrEqualToThreshold" /\
    ComparisonOperator cpu = "GreaterThanOrEqualToThreshold" /\
    ComparisonOperator mem = "GreaterThanOrEqualToThreshold".
Proof.
  intros Hp. rewrite process_instance_windows by assumption.
  unfold baseline. simpl app.
  do 4 eexists. split; [reflexivity|].
  repeat split.
Qed.

Lemma windows_four_alarms_witness :
  platform_of db1 = "windows" /\
  exists status cpu mem disk,
    process_instance acme "gl" db1 "acme" "arn:topic" "us-east-1" [] =
      (Ok [status; cpu; mem; disk], []) /\
    AlarmName status =
      alarm_name "gl" "acme" (instance_name_of db1) "status-check" /\
    AlarmName cpu = alarm_name "gl" "acme" (instance_name_of db1) "cpu-used" /\
    AlarmName mem = alarm_name "gl" "acme" (instance_name_of db1) "mem-used" /\
    AlarmName disk =
      alarm_name "gl" "acme" (instance_name_of db1) "disk-used" /\
    Threshold disk = 5%Z /\
    ComparisonOperator disk = "LessThanOrEqualToThreshold" /\
    ComparisonOperator status = "GreaterThanOrEqualToThreshold" /\
    ComparisonOperator cpu = "GreaterThanOrEqualToThreshold" /\
    ComparisonOperator mem = "GreaterThanOrEqualToThreshold".
Proof.
  split; [reflexivity | apply windows_four_alarms; reflexivity].
Defined.

(** C10. For every instance whose lowercased platform is neither linux
    nor windows the rule engine returns exactly the two baseline
    definitions, status-check then cpu-used, makes no catalog call (the
    trace is unchanged) and raises nothing. *)
Theorem unknown_platform_baseline_only (W : World)
    (p alias sns region : string) (i : Instance) (tr : list event) :
  platform_of i <> "linux" ->
  platform_of i <> "windows" ->
  exists status cpu,
    process_instance W p i alias sns region tr = (Ok [status; cpu], tr) /\
    AlarmName status =
      alarm_name p alias (instance_name_of i) "status-check" /\
    MetricName status = "StatusCheckFailed" /\
    AlarmName cpu = alarm_name p alias (instance_name_of i) "cpu-used" /\
    MetricName cpu = "CPUUtilization".
Proof.
  intros Hl Hw. rewrite process_instance_other by assumption.
  unfold baseline. do 2 eexists. split; [reflexivity|]. repeat split.
Qed.

Lemma unknown_platform_baseline_only_witness :
  platform_of bsd1 <> "linux" /\
  platform_of bsd1 <> "windows" /\
  exists status cpu,
    process_instance acme "gl" bsd1 "acme" "arn:topic" "us-east-1" [] =
      (Ok [status; cpu], []) /\
    AlarmName status =
      alarm_name "gl" "acme" (instance_name_of bsd1) "status-check" /\
    MetricName status = "StatusCheckFailed" /\
    AlarmName cpu =
      alarm_name "gl" "acme" (instance_name_of bsd1) "cpu-used" /\
    MetricName cpu = "CPUUtilization".
Proof.
  assert (Hl : platform_of bsd1 <> "linux") by (vm_compute; discriminate).
  assert (Hw : platform_of bsd1 <> "windows") by (vm_compute; discriminate).
  split; [exact Hl | split; [exact Hw |]].
  apply (unknown_platform_baseline_only acme "gl" "acme" "arn:topic"
           "us-east-1" bsd1 [] Hl Hw).
Defined.

(** ** The optional alarms of the linux branch *)

Lemma flat_map_nil {A B} (f : A -> list B) (l : list A) :
  (forall x, In x l -> f x = []) -> flat_map f l = [].
Proof.
  induction l as [|x l IH]; simpl; intros H; [reflexivity|].
  rewrite (H x) by now left. apply IH. intros y Hy. apply H. now right.
Qed.

Section Samples.

Variables p sns alias name : string.

(** A sample without a root path adds no disk alarm. *)
Lemma no_root_path_no_alarm mn ds dims :
  (forall d, In d dims -> ~ (DimName d = "path" /\ DimValue d = "/")) ->
  flat_map (dimension_alarms p sns alias name mn ds) dims = [].
Proof.
  intros H. apply flat_map_nil. intros d Hd.
  rewrite dimension_alarms_eq.
  destruct (String.eqb_spec (DimName d) "path") as [Hn|Hn];
    destruct (String.eqb_spec (DimValue d) "/") as [Hv|Hv];
    simpl; try reflexivity.
  exfalso. apply (H d Hd). now split.
Qed.

Lemma sample_alarms_nil m :
  SampleMetricName m <> "mem_used_percent" ->
  (SampleMetricName m = "disk_used_percent" -> ~ has_root_path m) ->
  sample_alarms p sns alias name m = [].
Proof.
  intros Hmem Hdisk. rewrite sample_alarms_eq.
  apply String.eqb_neq in Hmem. rewrite Hmem. simpl.
  destruct (String.eqb_spec (SampleMetricName m) "disk_used_percent")
    as [Hd|Hd]; [|reflexivity].
  apply no_root_path_no_alarm. intros d Hin [Hn Hv].
  apply (Hdisk Hd). exists d. auto.
Qed.

(** A disk-used alarm among the alarms of a sample comes from a
    [disk_used_percent] sample with a root path. *)
Lemma disk_alarm_from_sample m a :
  In a (sample_alarms p sns alias name m) ->
  AlarmName a = alarm_name p alias name "disk-used" ->
  SampleMetricName m = "disk_used_percent" /\ has_root_path m.
Proof.
  rewrite sample_alarms_eq. intros Hin Hname.
  apply in_app_or in Hin. destruct Hin as [Hin|Hin].
  - destruct (SampleMetricName m =? "mem_used_percent")%string;
      [|contradiction].
    destruct Hin as [<-|[]]. simpl in Hname.
    apply alarm_name_suffix_inj in Hname. discriminate.
  - destruct (String.eqb_spec (SampleMetricName m) "disk_used_percent")
      as [Hd|Hd]; [|contradiction].
    split; [assumption|].
    apply in_flat_map in Hin. destruct Hin as [d [Hd_in Ha]].
    rewrite dimension_alarms_eq in Ha.
    destruct (String.eqb_spec (DimName d) "path") as [Hn|Hn];
      destruct (String.eqb_spec (DimValue d) "/") as [Hv|Hv];
      simpl in Ha; try contradiction.
    exists d. auto.
Qed.

(** A [disk_used_percent] sample with a root path adds a disk-used
    alarm. *)
Lemma sample_gives_disk_alarm m :
  SampleMetricName m = "disk_used_percent" ->
  has_root_path m ->
  exists a, In a (sample_alarms p sns alias name m) /\
            AlarmName a = alarm_name p alias name "disk-used".
Proof.
  intros Hd [d [Hin [Hn Hv]]].
  exists (base_alarm sns (alarm_name p alias name "disk-used")
            (SampleMetricName m) "CWAgent" (SampleDimensions m) 95
            "GreaterThanOrEqualToThreshold").
  split; [|reflexivity].
  rewrite sample_alarms_eq. apply in_or_app. right.
  apply String.eqb_eq in Hd. rewrite Hd.
  apply in_flat_map. exists d. split; [assumption|].
  rewrite dimension_alarms_eq.
  apply String.eqb_eq in Hn, Hv. rewrite Hn, Hv. now left.
Qed.

End Samples.

(** C6. For every linux instance whose catalog answers without a
    sample named mem_used_percent and without a disk_used_percent
    sample that has a root path, the rule engine returns (it does not
    raise) exactly two definitions, status-check then cpu-used, after
    its one catalog call. *)
Theorem linux_without_agent_metrics (W : World)
    (p alias sns region : string) (i : Instance) (tr : list event)
    (metrics : option (list MetricSample)) :
  platform_of i = "linux" ->
  list_metrics W "CWAgent"
    [ {| DimName := "InstanceId"; DimValue := InstanceId i |} ] =
    Ok metrics ->
  (forall m, In m (get_default metrics []) ->
             SampleMetricName m <> "mem_used_percent") ->
  (forall m, In m (get_default metrics []) ->
             SampleMetricName m = "disk_used_percent" ->
             ~ has_root_path m) ->
  exists status cpu,
    process_instance W p i alias sns region tr =
      (Ok [status; cpu],
       tr ++ [ EvListMetrics "CWAgent"
                 [ {| DimName := "InstanceId";
                      DimValue := InstanceId i |} ] ]) /\
    AlarmName status =
      alarm_name p alias (instance_name_of i) "status-check" /\
    AlarmName cpu = alarm_name p alias (instance_name_of i) "cpu-used".
Proof.
  intros Hp Hm Hmem Hdisk.
  rewrite process_instance_linux by assumption. rewrite Hm.
  rewrite flat_map_nil.
  - rewrite app_nil_r. unfold baseline.
    do 2 eexists. split; [reflexivity|]. split; reflexivity.
  - intros m Hin. apply sample_alarms_nil; auto.
Qed.

Lemma linux_without_agent_metrics_witness :
  exists status cpu,
    process_instance acme "gl" web2 "acme" "arn:topic" "us-east-1" [] =
      (Ok [status; cpu],
       [] ++ [ EvListMetrics "CWAgent"
                 [ {| DimName := "InstanceId";
                      DimValue := InstanceId web2 |} ] ]) /\
    AlarmName status =
      alarm_name "gl" "acme" (instance_name_of web2) "status-check" /\
    AlarmName cpu =
      alarm_name "gl" "acme" (instance_name_of web2) "cpu-used".
Proof.
  apply (linux_without_agent_metrics acme "gl" "acme" "arn:topic"
           "us-east-1" web2 [] (Some [data_disk])).
  - reflexivity.
  - reflexivity.
  - intros m [<-|[]]. simpl. discriminate.
  - intros m [<-|[]] _ [d [Hd [Hn Hv]]].
    simpl in Hd. destruct Hd as [<-|[<-|[]]]; simpl in *; discriminate.
Defined.

(** C5. For every linux instance a disk-used alarm definition is
    emitted if and only if the catalog returns a sample named
    disk_used_percent that has a dimension path with value /; a
    disk_used_percent sample without such a dimension (its path is
    /data, say) leaves the alarm list as it was. *)
Theorem linux_disk_alarm_iff_root_path (W : World)
    (p alias sns region : string) (i : Instance) (tr : list event) :
  platform_of i = "linux" ->
  ((exists a,
      In a (emitted (fst (process_instance W p i alias sns region tr))) /\
      AlarmName a = alarm_name p alias (instance_name_of i) "disk-used")
   <->
   (exists m,
      In m (catalog_samples W (InstanceId i)) /\
      SampleMetricName m = "disk_used_percent" /\ has_root_path m)) /\
  (forall m acc,
      SampleMetricName m = "disk_used_percent" ->
      ~ has_root_path m ->
      metric_step p sns alias (instance_name_of i) acc m = acc).
Proof.
  intros Hp. split.
  - rewrite process_instance_linux by assumption.
    unfold catalog_samples. cbn [fst].
    destruct (list_metrics W _ _) as [metrics|e]; cbn [emitted].
    + split.
      * intros [a [Hin Hname]]. apply in_app_or in Hin.
        destruct Hin as [Hin|Hin].
        -- exfalso. unfold baseline in Hin.
           destruct Hin as [<-|[<-|[]]]; simpl in Hname;
             apply alarm_name_suffix_inj in Hname; discriminate.
        -- apply in_flat_map in Hin. destruct Hin as [m [Hm Ha]].
           exists m. split; [assumption|].
           eapply disk_alarm_from_sample; eassumption.
      * intros [m [Hm [Hd Hroot]]].
        destruct (sample_gives_disk_alarm p sns alias
                    (instance_name_of i) m Hd Hroot) as [a [Ha Hname]].
        exists a. split; [|assumption].
        apply in_or_app. right. apply in_flat_map. eauto.
    + split.
      * intros [a [[] _]].
      * intros [m [[] _]].
  - intros m acc Hd Hroot. rewrite metric_step_acc.
    rewrite sample_alarms_nil; [apply app_nil_r | | auto].
    rewrite Hd. discriminate.
Qed.

Lemma linux_disk_alarm_iff_root_path_witness :
  platform_of web1 = "linux" /\
  (exists a,
     In a (emitted (fst (process_instance acme "gl" web1 "acme"
                           "arn:topic" "us-east-1" []))) /\
     AlarmName a = "gl_acme_ec2_web1_disk-used") /\
  metric_step "gl" "arn:topic" "acme" "web1" [] data_disk = [].
Proof.
  assert (Hp : platform_of web1 = "linux") by reflexivity.
  destruct (linux_disk_alarm_iff_root_path acme "gl" "acme" "arn:topic"
              "us-east-1" web1 [] Hp) as [[_ Hemit] Hskip].
  split; [exact Hp | split].
  - apply Hemit. exists root_disk. split; [right; now left|].
    split; [reflexivity|].
    exists {| DimName := "path"; DimValue := "/" |}.
    split; [right; now left | split; reflexivity].
  - apply (Hskip data_disk []); [reflexivity|].
    intros [d [Hd [Hn Hv]]].
    simpl in Hd. destruct Hd as [<-|[<-|[]]]; simpl in *; discriminate.
Defined.

(** ** Alarm names *)

Lemma baseline_names (p sns alias : string) (i : Instance) :
  map AlarmName (baseline p sns alias i) =
  [ alarm_name p alias (instance_name_of i) "status-check";
    alarm_name p alias (instance_name_of i) "cpu-used" ].
Proof. reflexivity. Qed.

Lemma sample_alarms_names (p sns alias name : string) (m : MetricSample) :
  Forall (fun a => AlarmName a = alarm_name p alias name "mem-used" \/
                   AlarmName a = alarm_name p alias name "disk-used")
    (sample_alarms p sns alias name m).
Proof.
  rewrite sample_alarms_eq. apply Forall_app. split.
  - destruct (_ =? _)%string; constructor; [now left | constructor].
  - destruct (_ =? _)%string; [|constructor].
    apply Forall_flat_map. apply Forall_forall. intros d _.
    rewrite dimension_alarms_eq.
    destruct (_ && _); constructor; [now right | constructor].
Qed.

(** C8. The alarm name is the function
    prefix_alias_ec2_name_suffix of its four arguments, and every
    definition the rule engine emits is named by it with one of the
    four suffixes and the display name of the instance: the instance
    id takes no part.  Hence the two baseline names of an instance are
    fixed by its display name, and for the two distinct instances
    i-0a1 and i-0a2 of account acme, both displayed as web1, the run
    submits two different definitions under one name. *)
Theorem alarm_names_deterministic_and_collide :
  (forall p alias name suffix,
     alarm_name p alias name suffix =
     (p ++ "_" ++ alias ++ "_ec2_" ++ name ++ "_" ++ suffix)%string) /\
  (forall W p alias sns region i tr,
     Forall
       (fun a => exists suffix,
          In suffix ["status-check"; "cpu-used"; "mem-used"; "disk-used"] /\
          AlarmName a = alarm_name p alias (instance_name_of i) suffix)
       (emitted (fst (process_instance W p i alias sns region tr)))) /\
  (forall p sns alias i,
     map AlarmName (baseline p sns alias i) =
     [ alarm_name p alias (instance_name_of i) "status-check";
       alarm_name p alias (instance_name_of i) "cpu-used" ]) /\
  (InstanceId web1 <> InstanceId web2 /\
   instance_name_of web1 = instance_name_of web2 /\
   exists a1 a2,
     In a1 (put_attempts (snd (main acme [] "gl_env" "prod"))) /\
     In a2 (put_attempts (snd (main acme [] "gl_env" "prod"))) /\
     Dimensions a1 <> Dimensions a2 /\
     AlarmName a1 = AlarmName a2).
Proof.
  split; [reflexivity|]. split; [|split; [apply baseline_names|]].
  - intros W p alias sns region i tr.
    assert (Hbase : Forall
      (fun a => exists suffix,
         In suffix ["status-check"; "cpu-used"; "mem-used"; "disk-used"] /\
         AlarmName a = alarm_name p alias (instance_name_of i) suffix)
      (baseline p sns alias i)).
    { unfold baseline. repeat constructor.
      - exists "status-check". simpl. auto.
      - exists "cpu-used". simpl. auto. }
    destruct (String.eqb_spec (platform_of i) "linux") as [Hl|Hl].
    + rewrite process_instance_linux by assumption. cbn [fst].
      destruct (list_metrics W _ _) as [metrics|e]; cbn [emitted];
        [|constructor].
      apply Forall_app. split; [exact Hbase|].
      apply Forall_flat_map. apply Forall_forall. intros m _.
      eapply Forall_impl; [|apply sample_alarms_names].
      intros a [Ha|Ha].
      * exists "mem-used". simpl. auto.
      * exists "disk-used". simpl. auto 6.
    + destruct (String.eqb_spec (platform_of i) "windows") as [Hw|Hw].
      * rewrite process_instance_windows by assumption.
        cbn [fst emitted]. apply Forall_app. split; [exact Hbase|].
        repeat constructor.
        -- exists "mem-used". simpl. auto.
        -- exists "disk-used". simpl. auto 6.
      * rewrite process_instance_other by assumption. exact Hbase.
  - split; [vm_compute; discriminate|]. split; [reflexivity|].
    exists (base_alarm
              "arn:aws:sns:us-east-1:111122223333:Infrastructure_Topic"
              "gl_acme_ec2_web1_status-check" "StatusCheckFailed" "AWS/EC2"
              [ {| DimName := "InstanceId"; DimValue := "i-0a1" |} ]
              1 "GreaterThanOrEqualToThreshold").
    exists (base_alarm
              "arn:aws:sns:us-east-1:111122223333:Infrastructure_Topic"
              "gl_acme_ec2_web1_status-check" "StatusCheckFailed" "AWS/EC2"
              [ {| DimName := "InstanceId"; DimValue := "i-0a2" |} ]
              1 "GreaterThanOrEqualToThreshold").
    split; [vm_compute; now left|].
    split; [vm_compute; do 4 right; now left|].
    split; [vm_compute; discriminate | reflexivity].
Qed.

(** ** Batches *)

Lemma range_from_count (fuel i stop : nat) :
  stop - i <= fuel ->
  range_from fuel i stop 10 =
  map (fun k => i + 10 * k) (seq 0 ((stop - i + 9) / 10)).
Proof.
  revert i. induction fuel as [|fuel IH]; intros i Hfuel; cbn [range_from].
  - replace ((stop - i + 9) / 10) with 0; [reflexivity|].
    symmetry. apply Nat.div_small. lia.
  - destruct (Nat.ltb_spec i stop) as [Hlt|Hge].
    + rewrite IH by lia.
      assert (Hc : (stop - i + 9) / 10 = S ((stop - (i + 10) + 9) / 10)).
      { destruct (Nat.le_gt_cases (i + 10) stop) as [Hbig|Hsmall].
        - replace (stop - i + 9) with ((stop - (i + 10) + 9) + 1 * 10)
            by lia.
          rewrite Nat.div_add by discriminate. lia.
        - replace (stop - (i + 10) + 9) with 9 by lia.
          replace (stop - i + 9) with ((stop - i - 1) + 1 * 10) by lia.
          rewrite Nat.div_add by discriminate.
          rewrite (Nat.div_small (stop - i - 1)) by lia.
          reflexivity. }
      rewrite Hc. cbn [seq map]. rewrite <- seq_shift, map_map.
      f_equal; [lia|]. apply map_ext. intros k. lia.
    + replace ((stop - i + 9) / 10) with 0; [reflexivity|].
      symmetry. apply Nat.div_small. lia.
Qed.

Lemma range_count (n : nat) :
  range 0 n 10 = map (fun k => 10 * k) (seq 0 ((n + 9) / 10)).
Proof.
  unfold range. rewrite range_from_count by lia.
  rewrite Nat.sub_0_r. reflexivity.
Qed.

Lemma batches_eq {A} (l : list A) :
  batches l =
  map (fun k => firstn 10 (skipn (10 * k) l))
    (seq 0 ((length l + 9) / 10)).
Proof.
  unfold batches. rewrite range_count, map_map.
  apply map_ext. intros k. unfold slice. f_equal. lia.
Qed.

Lemma firstn_plus {A} (n m : nat) (l : list A) :
  firstn (n + m) l = firstn n l ++ firstn m (skipn n l).
Proof.
  revert l. induction n as [|n IH]; intros l; [reflexivity|].
  destruct l as [|x l]; simpl.
  - now rewrite firstn_nil.
  - now rewrite IH.
Qed.

Lemma concat_chunks {A} (l : list A) (c : nat) :
  concat (map (fun k => firstn 10 (skipn (10 * k) l)) (seq 0 c)) =
  firstn (10 * c) l.
Proof.
  induction c as [|c IH]; [reflexivity|].
  rewrite seq_S, map_app, concat_app, IH. cbn [map concat].
  rewrite app_nil_r, Nat.add_0_l, <- firstn_plus. f_equal. lia.
Qed.

Lemma ceil_bounds (n : nat) :
  n <= 10 * ((n + 9) / 10) < n + 10.
Proof.
  pose proof (Nat.div_mod_eq (n + 9) 10) as Hd.
  pose proof (Nat.mod_upper_bound (n + 9) 10) as Hm.
  lia.
Qed.

Lemma batches_length {A} (l : list A) :
  length (batches l) = (length l + 9) / 10.
Proof. now rewrite batches_eq, length_map, length_seq. Qed.

Lemma batches_nth {A} (l : list A) (k : nat) :
  k < length (batches l) ->
  nth k (batches l) [] = firstn 10 (skipn (10 * k) l).
Proof.
  rewrite batches_length. intros Hk. rewrite batches_eq.
  rewrite (nth_indep _ [] (firstn 10 (skipn (10 * 0) l)))
    by now rewrite length_map, length_seq.
  rewrite (map_nth (fun k => firstn 10 (skipn (10 * k) l))).
  now rewrite seq_nth.
Qed.

Lemma batches_concat {A} (l : list A) : concat (batches l) = l.
Proof.
  rewrite batches_eq, concat_chunks.
  apply firstn_all2. apply ceil_bounds.
Qed.

(** ** Loops in the monad *)

Lemma for_each_app {A} (l1 l2 : list A) (body : A -> M unit) tr :
  for_each (l1 ++ l2) body tr =
  (for_each l1 body ;;; for_each l2 body) tr.
Proof.
  revert tr. induction l1 as [|x l1 IH]; intros tr; [reflexivity|].
  simpl. unfold bind in *.
  destruct (body x tr) as [[[]|e] tr']; [apply IH | reflexivity].
Qed.

Lemma for_each_concat {A} (ls : list (list A)) (body : A -> M unit) tr :
  for_each (concat ls) body tr =
  for_each ls (fun l => for_each l body) tr.
Proof.
  revert tr. induction ls as [|l ls IH]; intros tr; [reflexivity|].
  simpl. rewrite for_each_app. unfold bind.
  destruct (for_each l body tr) as [[[]|e] tr']; [apply IH | reflexivity].
Qed.

Lemma for_each_map {A B} (f : A -> B) (l : list A) (body : B -> M unit) :
  for_each (map f l) body = for_each l (fun x => body (f x)).
Proof.
  induction l as [|x l IH]; [reflexivity|]. simpl. now rewrite IH.
Qed.

Lemma submit_in_batches_eq (W : World) (tag : string) (c : Client)
    (all : list Alarm) :
  submit_in_batches W tag c all =
  for_each (batches all) (create_cloudwatch_alarm_batch W tag c).
Proof.
  unfold submit_in_batches, batches. now rewrite for_each_map.
Qed.

(** C9. The submitter cuts a list of N definitions into ceil(N/10)
    batches: every batch but the last has 10 definitions, every batch
    has between 1 and 10, and the batches in order concatenate to the
    list, so each definition is handed over exactly once. *)
Theorem submit_in_batches_partitions (W : World) (tag : string)
    (c : Client) (all : list Alarm) :
  submit_in_batches W tag c all =
    for_each (batches all) (create_cloudwatch_alarm_batch W tag c) /\
  length (batches all) = (length all + 9) / 10 /\
  length all <= 10 * length (batches all) < length all + 10 /\
  (forall k, S k < length (batches all) ->
             length (nth k (batches all) []) = 10) /\
  (forall k, k < length (batches all) ->
             1 <= length (nth k (batches all) []) <= 10) /\
  concat (batches all) = all.
Proof.
  pose proof (ceil_bounds (length all)) as Hceil.
  pose proof (batches_length all) as Hlen.
  split; [apply submit_in_batches_eq|]. split; [exact Hlen|].
  split; [rewrite Hlen; exact Hceil|].
  split; [|split; [|apply batches_concat]].
  - intros k Hk. rewrite batches_nth by lia.
    rewrite length_firstn, length_skipn. lia.
  - intros k Hk. rewrite batches_nth by lia.
    rewrite length_firstn, length_skipn. lia.
Qed.

Lemma submit_in_batches_partitions_witness :
  length (batches (put_attempts (snd (main acme [] "gl_env" "prod")))) = 2 /\
  length (nth 0 (batches (put_attempts (snd (main acme [] "gl_env" "prod"))))
            []) = 10 /\
  1 <= length (nth 1 (batches
                        (put_attempts (snd (main acme [] "gl_env" "prod"))))
                 []) <= 10.
Proof.
  destruct (submit_in_batches_partitions acme "gl_monitoring"
              {| region_name := "us-east-1" |}
              (put_attempts (snd (main acme [] "gl_env" "prod"))))
    as [_ [Hlen [_ [Hfull [Hsize _]]]]].
  assert (H2 : length (batches
                 (put_attempts (snd (main acme [] "gl_env" "prod")))) = 2)
    by (rewrite Hlen; reflexivity).
  split; [exact H2|]. split.
  - apply Hfull. rewrite H2. lia.
  - apply Hsize. rewrite H2. lia.
Defined.

(** ** Submission *)

Section Submission.

Variable W : World.
Variable tag : string.
Variable c : Client.

(** One turn of the loop never raises and appends [create_events]. *)
Lemma create_and_tag_eq (a : Alarm) (tr : list event) :
  create_and_tag W tag c a tr = (Ok tt, tr ++ create_events W tag c a tr).
Proof.
  unfold create_and_tag, create_events, tagging_events, tag_alarm,
    cloudwatch_put_metric_alarm, cloudwatch_tag_resource,
    sts_get_caller_identity, datetime_utcnow_date,
    try_except, bind, history, emit, lift, raise, ret.
  destruct (put_metric_alarm W tr a) as [e|]; [reflexivity|].
  destruct (get_caller_identity W (tr ++ [EvPutMetricAlarm a true]))
    as [account|e].
  - destruct (tag_resource W _ _ _) as [e|];
      rewrite <- !app_assoc; reflexivity.
  - rewrite <- !app_assoc. reflexivity.
Qed.

Lemma tagging_events_tags (a : Alarm) (tr : list event) :
  Forall tags_only (tagging_events W tag c a tr).
Proof.
  unfold tagging_events.
  destruct (get_caller_identity W tr); repeat constructor.
Qed.

Lemma put_attempts_app (tr1 tr2 : list event) :
  put_attempts (tr1 ++ tr2) = put_attempts tr1 ++ put_attempts tr2.
Proof.
  induction tr1 as [|e tr1 IH]; [reflexivity|].
  destruct e; simpl; now rewrite IH.
Qed.

Lemma put_attempts_tags (ev : list event) :
  Forall tags_only ev -> put_attempts ev = [].
Proof.
  induction 1 as [|e ev He _ IH]; [reflexivity|].
  destruct e; simpl in *; solve [contradiction | assumption].
Qed.

Lemma put_attempts_create (a : Alarm) (tr : list event) :
  put_attempts (create_events W tag c a tr) = [a].
Proof.
  unfold create_events.
  destruct (put_metric_alarm W tr a); [reflexivity|].
  cbn [put_attempts].
  now rewrite put_attempts_tags by apply tagging_events_tags.
Qed.

(** The loop of [create_cloudwatch_alarm_batch] over any list. *)
Lemma create_events_head (a : Alarm) (tr : list event) :
  exists accepted more,
    create_events W tag c a tr = EvPutMetricAlarm a accepted :: more.
Proof.
  unfold create_events.
  destruct (put_metric_alarm W tr a); do 2 eexists; reflexivity.
Qed.

Lemma batch_turns (alarms : list Alarm) (tr : list event) :
  exists ev,
    create_cloudwatch_alarm_batch W tag c alarms tr = (Ok tt, tr ++ ev) /\
    put_attempts ev = alarms /\
    next_turn ev alarms /\
    forall k a, nth_error alarms k = Some a ->
      exists before after,
        ev = before ++ create_events W tag c a (tr ++ before) ++ after /\
        put_attempts before = firstn k alarms /\
        put_attempts after = skipn (S k) alarms /\
        next_turn after (skipn (S k) alarms).
Proof.
  unfold create_cloudwatch_alarm_batch.
  revert tr. induction alarms as [|a0 rest IH]; intros tr.
  - exists []. rewrite app_nil_r. repeat split.
    intros [|k] a H; discriminate.
  - cbn [for_each]. unfold bind. rewrite create_and_tag_eq.
    destruct (IH (tr ++ create_events W tag c a0 tr))
      as [ev [Hrun [Hputs [Hnext Hturn]]]].
    exists (create_events W tag c a0 tr ++ ev).
    rewrite Hrun, app_assoc. split; [reflexivity|]. split; [|split].
    + now rewrite put_attempts_app, put_attempts_create, Hputs.
    + cbn [next_turn].
      destruct (create_events_head a0 tr) as [accepted [more ->]].
      now exists accepted, (more ++ ev).
    + intros [|k] a Hk.
      * injection Hk as <-. exists [], ev.
        rewrite app_nil_r. repeat split; assumption.
      * destruct (Hturn k a Hk) as [before [after [Hev [Hb [Ha Hn]]]]].
        exists (create_events W tag c a0 tr ++ before), after.
        split; [|split; [|split]].
        -- rewrite Hev. rewrite <- !app_assoc. reflexivity.
        -- now rewrite put_attempts_app, put_attempts_create, Hb.
        -- exact Ha.
        -- exact Hn.
Qed.

(** Batch after batch is alarm after alarm. *)
Lemma submit_in_batches_flat (all : list Alarm) (tr : list event) :
  submit_in_batches W tag c all tr =
  create_cloudwatch_alarm_batch W tag c all tr.
Proof.
  rewrite submit_in_batches_eq.
  unfold create_cloudwatch_alarm_batch.
  rewrite <- for_each_concat, batches_concat. reflexivity.
Qed.

End Submission.

(** C7. Submitting a list of definitions never raises and calls
    [put_metric_alarm] once for every definition, in order.  The turn
    of the k-th definition comes after the attempts for the first k and
    before the attempts for all the later ones, whatever its outcome,
    and what follows it at once is the create call of the next
    definition, or nothing when it is the last.  When the create call
    fails the turn is that call alone: no identity and no tagging call
    is made for it.  When it succeeds the turn is the accepted create
    call followed by tagging calls only, so a failed tagging leaves the
    create call accepted and nothing takes it back. *)
Theorem submission_isolates_failures (W : World) (tag : string)
    (c : Client) (alarms : list Alarm) (tr : list event) :
  exists ev,
    submit_in_batches W tag c alarms tr = (Ok tt, tr ++ ev) /\
    put_attempts ev = alarms /\
    forall k a, nth_error alarms k = Some a ->
      exists before turn after,
        ev = before ++ turn ++ after /\
        put_attempts before = firstn k alarms /\
        put_attempts after = skipn (S k) alarms /\
        next_turn after (skipn (S k) alarms) /\
        (put_metric_alarm W (tr ++ before) a <> None ->
         turn = [EvPutMetricAlarm a false]) /\
        (put_metric_alarm W (tr ++ before) a = None ->
         exists tagging,
           turn = EvPutMetricAlarm a true :: tagging /\
           tagging = tagging_events W tag c a
                       ((tr ++ before) ++ [EvPutMetricAlarm a true]) /\
           Forall tags_only tagging /\
           In (EvPutMetricAlarm a true) (tr ++ ev)).
Proof.
  rewrite submit_in_batches_flat.
  destruct (batch_turns W tag c alarms tr)
    as [ev [Hrun [Hputs [_ Hturn]]]].
  exists ev. split; [exact Hrun|]. split; [exact Hputs|].
  intros k a Hk.
  destruct (Hturn k a Hk) as [before [after [Hev [Hb [Ha Hn]]]]].
  exists before, (create_events W tag c a (tr ++ before)), after.
  split; [exact Hev|]. split; [exact Hb|]. split; [exact Ha|].
  split; [exact Hn|].
  unfold create_events. split.
  - intros Hfail.
    destruct (put_metric_alarm W (tr ++ before) a);
      [reflexivity | contradiction].
  - intros Hok. rewrite Hok. eexists. split; [reflexivity|].
    split; [reflexivity|]. split; [apply tagging_events_tags|].
    rewrite Hev. unfold create_events. rewrite Hok.
    apply in_or_app. right. apply in_or_app. right. now left.
Qed.

Lemma submission_isolates_failures_witness :
  nth_error (baseline "gl" "arn:topic" "acme" web1) 1 =
    Some (base_alarm "arn:topic" "gl_acme_ec2_web1_cpu-used"
            "CPUUtilization" "AWS/EC2"
            [ {| DimName := "InstanceId"; DimValue := "i-0a1" |} ]
            95 "GreaterThanOrEqualToThreshold") /\
  exists ev before,
    submit_in_batches acme_flaky "gl_monitoring"
      {| region_name := "us-east-1" |}
      (baseline "gl" "arn:topic" "acme" web1) [] = (Ok tt, [] ++ ev) /\
    put_attempts ev = baseline "gl" "arn:topic" "acme" web1 /\
    ev = before ++
         [ EvPutMetricAlarm
             (base_alarm "arn:topic" "gl_acme_ec2_web1_cpu-used"
                "CPUUtilization" "AWS/EC2"
                [ {| DimName := "InstanceId"; DimValue := "i-0a1" |} ]
                95 "GreaterThanOrEqualToThreshold") false ].
Proof.
  split; [reflexivity|].
  destruct (submission_isolates_failures acme_flaky "gl_monitoring"
              {| region_name := "us-east-1" |}
              (baseline "gl" "arn:topic" "acme" web1) [])
    as [ev [Hrun [Hputs Hturn]]].
  destruct (Hturn 1 _ eq_refl)
    as [before [turn [after [Hev [_ [_ [Hnext [Hfail _]]]]]]]].
  exists ev, before.
  split; [exact Hrun|]. split; [exact Hputs|].
  assert (Hturn1 : turn = _) by (apply Hfail; vm_compute; discriminate).
  cbn [skipn baseline next_turn] in Hnext.
  rewrite Hturn1, Hnext in Hev. exact Hev.
Defined.

(** ** Which calls a computation makes *)

Lemma emits_ret {A} (P : event -> Prop) (a : A) : emits P (ret a).
Proof. intros tr. exists []. now rewrite app_nil_r. Qed.

Lemma emits_raise {A} (P : event -> Prop) (e : exn) :
  emits P (@raise A e).
Proof. intros tr. exists []. now rewrite app_nil_r. Qed.

Lemma emits_lift {A} (P : event -> Prop) (r : result A) :
  emits P (lift r).
Proof. intros tr. exists []. now rewrite app_nil_r. Qed.

Lemma emits_emit (P : event -> Prop) (e : event) :
  P e -> emits P (emit e).
Proof. intros He tr. exists [e]. split; [reflexivity | now constructor]. Qed.

Lemma emits_bind {A B} (P : event -> Prop) (m : M A) (k : A -> M B) :
  emits P m -> (forall a, emits P (k a)) -> emits P (bind m k).
Proof.
  intros Hm Hk tr. unfold bind.
  destruct (Hm tr) as [ev [Htr Hev]].
  destruct (m tr) as [[a|e] tr']; simpl in Htr; subst tr'.
  - destruct (Hk a (tr ++ ev)) as [ev' [Htr' Hev']].
    exists (ev ++ ev'). rewrite Htr', app_assoc.
    split; [reflexivity | now apply Forall_app].
  - exists ev. now split.
Qed.

Lemma emits_try_except {A} (P : event -> Prop) (m : M A)
    (h : exn -> M A) :
  emits P m -> (forall e, emits P (h e)) -> emits P (try_except m h).
Proof.
  intros Hm Hh tr. unfold try_except.
  destruct (Hm tr) as [ev [Htr Hev]].
  destruct (m tr) as [[a|e] tr']; simpl in Htr; subst tr'.
  - exists ev. now split.
  - destruct (Hh e (tr ++ ev)) as [ev' [Htr' Hev']].
    exists (ev ++ ev'). rewrite Htr', app_assoc.
    split; [reflexivity | now apply Forall_app].
Qed.

Lemma emits_weaken {A} (P Q : event -> Prop) (m : M A) :
  (forall e, P e -> Q e) -> emits P m -> emits Q m.
Proof.
  intros HPQ Hm tr. destruct (Hm tr) as [ev [Htr Hev]].
  exists ev. split; [exact Htr|]. eapply Forall_impl; eassumption.
Qed.

Lemma emits_for_pages {A St} (P : event -> Prop) (call : nat -> event)
    (ps : list A) (fail : option exn) (body : A -> St -> M St) :
  (forall k, P (call k)) ->
  (forall page s, emits P (body page s)) ->
  forall k s, emits P (for_pages call ps fail k body s).
Proof.
  intros Hcall Hbody. induction ps as [|page ps IH]; intros k s; simpl.
  - destruct fail as [e|].
    + apply emits_bind; [now apply emits_emit|].
      intros _. apply emits_raise.
    + apply emits_ret.
  - apply emits_bind; [now apply emits_emit|]. intros _.
    apply emits_bind; [apply Hbody|]. intros s'. apply IH.
Qed.

Lemma scan_topic_pages_emits (name region : string)
    (ps : list (option (list Topic))) (fail : option exn) (k : nat) :
  emits resolves (scan_topic_pages name region ps fail k).
Proof.
  revert k. induction ps as [|page ps IH]; intros k; simpl.
  - destruct fail as [e|]; [|apply emits_raise].
    apply emits_bind; [now apply emits_emit|].
    intros _. apply emits_raise.
  - apply emits_bind; [now apply emits_emit|]. intros _.
    destruct (find_topic name (get_default page [])).
    + apply emits_ret.
    + apply IH.
Qed.

Lemma get_sns_topic_arn_emits (W : World) (name region : string) :
  emits resolves (get_sns_topic_arn W name region).
Proof.
  unfold get_sns_topic_arn. apply emits_try_except.
  - apply scan_topic_pages_emits.
  - intros e. apply emits_raise.
Qed.

(** ** One page of instances *)

Lemma nth_remove_nth {A} (k : nat) (l : list A) (d : A) :
  k < length l -> Permutation (nth k l d :: remove_nth k l) l.
Proof.
  revert k. induction l as [|x l IH]; intros k Hk; [inversion Hk|].
  destruct k as [|k]; cbn [nth remove_nth]; [reflexivity|].
  rewrite perm_swap. constructor. apply IH. cbn [length] in Hk. lia.
Qed.

Lemma length_remove_nth {A} (k : nat) (l : list A) :
  k < length l -> S (length (remove_nth k l)) = length l.
Proof.
  revert k. induction l as [|x l IH]; intros k Hk; [inversion Hk|].
  destruct k as [|k]; cbn [remove_nth length]; [reflexivity|].
  rewrite IH; [reflexivity|]. cbn [length] in Hk. lia.
Qed.

(** Whatever the schedule, every worker gets its turn, once. *)
Lemma pick_order_permutation {A} (choice : nat -> nat) (fuel step : nat)
    (l : list A) :
  length l <= fuel -> Permutation (pick_order choice fuel step l) l.
Proof.
  revert step l. induction fuel as [|fuel IH]; intros step l Hfuel.
  - destruct l; [reflexivity | inversion Hfuel].
  - destruct l as [|x l]; [reflexivity|]. cbn [pick_order].
    assert (Hk : choice step mod length (x :: l) < length (x :: l))
      by (apply Nat.mod_upper_bound; discriminate).
    rewrite IH.
    + now apply nth_remove_nth.
    + pose proof (length_remove_nth _ (x :: l) Hk) as Hlen.
      cbn [length] in Hfuel, Hlen |- *. lia.
Qed.

Lemma pick_order_ext {A} (choice1 choice2 : nat -> nat) (fuel step : nat)
    (l : list A) :
  (forall s, step <= s -> choice1 s = choice2 s) ->
  pick_order choice1 fuel step l = pick_order choice2 fuel step l.
Proof.
  revert step l. induction fuel as [|fuel IH]; intros step l Hext;
    [reflexivity|].
  destruct l as [|x l]; [reflexivity|]. cbn [pick_order].
  rewrite (Hext step (Nat.le_refl _)). f_equal.
  apply IH. intros s Hs. apply Hext. lia.
Qed.

(** Every order of the workers is the order of some schedule. *)
Lemma every_order_scheduled {A} (order l : list A) (step : nat) :
  Permutation order l ->
  exists choice, pick_order choice (length l) step l = order.
Proof.
  revert l step. induction order as [|x order IH]; intros l step Hperm.
  - apply Permutation_nil in Hperm. subst l. now exists (fun _ => 0).
  - assert (Hin : In x l)
      by (eapply Permutation_in; [exact Hperm | now left]).
    destruct (In_nth l x x Hin) as [k [Hk Hnth]].
    assert (Hrest : Permutation order (remove_nth k l)).
    { apply Permutation_cons_inv with (a := x).
      rewrite Hperm. symmetry. rewrite <- Hnth at 1.
      now apply nth_remove_nth. }
    destruct (IH (remove_nth k l) (S step) Hrest) as [choice' Hchoice].
    exists (fun s => if (s =? step)%nat then k else choice' s).
    rewrite <- (length_remove_nth k l Hk).
    destruct l as [|x0 l0]; [inversion Hk|]. cbn [pick_order].
    rewrite Nat.eqb_refl, (Nat.mod_small k) by exact Hk.
    rewrite (nth_indep _ x0 x Hk), Hnth. f_equal.
    rewrite <- Hchoice. apply pick_order_ext.
    intros s Hs. destruct (Nat.eqb_spec s step); [lia | reflexivity].
Qed.

Section Page.

Variable W : World.
Variables p alias sns region : string.

(** A worker returns what its future will hold and makes its catalog
    call, whatever was called before. *)
Lemma worker_runs (i : Instance) (tr : list event) :
  process_instance W p i alias sns region tr =
  (outcome W p alias sns region i, tr ++ catalog_calls i).
Proof.
  rewrite (surjective_pairing (process_instance W p i alias sns region tr)).
  rewrite process_instance_trace. unfold outcome.
  now rewrite (process_instance_result W p alias sns region i tr []).
Qed.

Lemma submit_reservation (reservation : list Instance)
    (futures : list (future (list Alarm))) (tr : list event) :
  fold_m
    (fun futures instance =>
       future <- executor_submit
                   (process_instance W p instance alias sns region) ;;
       ret (futures ++ [future]))
    reservation futures tr =
  (Ok (futures ++
       pool_futures W p alias sns region
         (map (fun i => (i, false)) reservation)),
   tr).
Proof.
  revert futures.
  induction reservation as [|i rest IH]; intros futures.
  - cbn. unfold ret. now rewrite app_nil_r.
  - cbn [fold_m]. unfold bind at 1. unfold bind at 1.
    unfold executor_submit, ret at 1 2.
    rewrite IH. cbn [map pool_futures snd fst]. now rewrite <- app_assoc.
Qed.

Lemma submit_page (page : list (list Instance))
    (futures : list (future (list Alarm))) (tr : list event) :
  fold_m
    (fun futures reservation =>
       fold_m
         (fun futures instance =>
            future <- executor_submit
                        (process_instance W p instance alias sns region) ;;
            ret (futures ++ [future]))
         reservation futures)
    page futures tr =
  (Ok (futures ++
       pool_futures W p alias sns region
         (map (fun i => (i, false)) (concat page))),
   tr).
Proof.
  revert futures.
  induction page as [|reservation rest IH]; intros futures.
  - cbn. unfold ret. now rewrite app_nil_r.
  - cbn [fold_m]. unfold bind at 1. rewrite submit_reservation, IH.
    cbn [concat]. unfold pool_futures.
    now rewrite !map_app, <- app_assoc.
Qed.

Lemma pending_count_pool (st : list (Instance * bool)) :
  pending_count (pool_futures W p alias sns region st) =
  length (pool_pending st).
Proof.
  induction st as [|[i [|]] st IH]; cbn; [reflexivity | exact IH |].
  f_equal. exact IH.
Qed.

Lemma pool_pending_mark (k : nat) (st : list (Instance * bool)) :
  pool_pending (pool_mark k st) = remove_nth k (pool_pending st).
Proof.
  revert k. induction st as [|[i [|]] st IH]; intros k; cbn.
  - now destruct k.
  - apply IH.
  - destruct k as [|k]; cbn; [reflexivity|]. f_equal. apply IH.
Qed.

Lemma pool_mark_done (k : nat) (st : list (Instance * bool)) :
  map (fun x => (fst x, true)) (pool_mark k st) =
  map (fun x => (fst x, true)) st.
Proof.
  revert k. induction st as [|[i [|]] st IH]; intros k; cbn.
  - reflexivity.
  - f_equal. apply IH.
  - destruct k as [|k]; cbn; [reflexivity|]. f_equal. apply IH.
Qed.

Lemma pool_all_done (st : list (Instance * bool)) :
  pool_pending st = [] ->
  pool_futures W p alias sns region st =
  pool_futures W p alias sns region (map (fun x => (fst x, true)) st).
Proof.
  induction st as [|[i [|]] st IH]; cbn; intros H.
  - reflexivity.
  - f_equal. now apply IH.
  - discriminate.
Qed.

(** The turn of the [k]-th pending worker. *)
Lemma run_pending_pool (k : nat) (st : list (Instance * bool))
    (d : Instance) (tr : list event) :
  k < length (pool_pending st) ->
  run_pending k (pool_futures W p alias sns region st) tr =
  (Ok (pool_futures W p alias sns region (pool_mark k st)),
   tr ++ catalog_calls (nth k (pool_pending st) d)).
Proof.
  revert k. induction st as [|[i [|]] st IH]; intros k Hk.
  - inversion Hk.
  - cbn [pool_futures map snd fst run_pending pool_mark pool_pending
         filter negb] in *.
    unfold bind. fold (pool_futures W p alias sns region st).
    fold (pool_pending st) in Hk |- *.
    now rewrite (IH k Hk).
  - destruct k as [|k];
      cbn [pool_futures map snd fst run_pending pool_mark pool_pending
           filter negb nth] in *.
    + now rewrite worker_runs.
    + unfold bind. fold (pool_futures W p alias sns region st).
      fold (pool_pending st) in Hk |- *.
      rewrite (IH k); [reflexivity|]. cbn [length] in Hk. lia.
Qed.

(** The workers of a pool: every pending one runs, in the order of the
    schedule. *)
Lemma workers_run_pool (choice : nat -> nat) (fuel step : nat)
    (st : list (Instance * bool)) (tr : list event) :
  length (pool_pending st) <= fuel ->
  workers_run choice fuel step (pool_futures W p alias sns region st) tr =
  (Ok (pool_futures W p alias sns region
         (map (fun x => (fst x, true)) st)),
   tr ++ flat_map catalog_calls
           (pick_order choice fuel step (pool_pending st))).
Proof.
  revert step st tr. induction fuel as [|fuel IH]; intros step st tr Hfuel.
  - assert (Hnone : pool_pending st = [])
      by (destruct (pool_pending st); [reflexivity | inversion Hfuel]).
    cbn [workers_run pick_order flat_map]. unfold ret.
    now rewrite app_nil_r, <- pool_all_done.
  - cbn [workers_run]. rewrite pending_count_pool.
    destruct (pool_pending st) as [|x l] eqn:Hpending.
    + cbn [length pick_order flat_map]. unfold ret.
      now rewrite app_nil_r, <- pool_all_done.
    + cbn [length pick_order]. unfold bind.
      assert (Hk : choice step mod S (length l) < length (pool_pending st)).
      { rewrite Hpending. apply Nat.mod_upper_bound. discriminate. }
      rewrite (run_pending_pool _ st x tr Hk), Hpending.
      rewrite IH.
      * rewrite pool_mark_done, pool_pending_mark, Hpending.
        cbn [flat_map]. now rewrite <- app_assoc.
      * rewrite pool_pending_mark.
        pose proof (length_remove_nth _ (pool_pending st) Hk) as Hlen.
        rewrite Hpending in Hlen |- *. cbn [length] in Hfuel, Hlen. lia.
Qed.

Lemma gather_futures (l : list Instance) (all : list Alarm)
    (tr : list event) :
  fold_m
    (fun all_alarm_configs future =>
       alarms <- future_result future ;;
       ret (all_alarm_configs ++ alarms))
    (pool_futures W p alias sns region (map (fun i => (i, true)) l))
    all tr =
  (gather (map (outcome W p alias sns region) l) all, tr).
Proof.
  revert all. induction l as [|i l IH]; intros all; [reflexivity|].
  cbn [map pool_futures snd fst fold_m gather].
  unfold bind at 1. unfold bind at 1.
  unfold future_result, lift, ret at 1.
  destruct (outcome W p alias sns region i) as [alarms|e];
    [apply IH | reflexivity].
Qed.

(** A page: every worker runs, in the order of the schedule, then the
    futures are collected in the order of submission. *)
Lemma process_page_eq (page : list (list Instance)) (all : list Alarm)
    (tr : list event) :
  process_page W p alias sns region page all tr =
  (gather (map (outcome W p alias sns region) (concat page)) all,
   tr ++ flat_map catalog_calls (page_order W tr page)).
Proof.
  assert (Hpending : pool_pending (map (fun i => (i, false)) (concat page))
                     = concat page).
  { induction (concat page) as [|i l IH]; cbn; [reflexivity|].
    f_equal. exact IH. }
  assert (Hlen : length (pool_futures W p alias sns region
                           (map (fun i => (i, false)) (concat page))) =
                 length (concat page))
    by (unfold pool_futures; now rewrite !length_map).
  unfold process_page, bind at 1. rewrite submit_page.
  cbv beta iota. cbn [app].
  unfold bind at 1. unfold executor_workers. unfold bind at 1.
  unfold history. cbv beta iota.
  rewrite Hlen, workers_run_pool
    by (rewrite Hpending; apply Nat.le_refl).
  rewrite Hpending, map_map. cbn [fst].
  fold (page_order W tr page).
  now rewrite gather_futures.
Qed.

Lemma page_order_permutation (page : list (list Instance))
    (tr : list event) :
  Permutation (page_order W tr page) (concat page).
Proof. apply pick_order_permutation. apply Nat.le_refl. Qed.

Lemma gather_raises (futures : list (result (list Alarm)))
    (all : list Alarm) (e : exn) :
  In (Raise e) futures -> exists e', gather futures all = Raise e'.
Proof.
  revert all. induction futures as [|[alarms|e0] rest IH]; intros all Hin.
  - contradiction.
  - destruct Hin as [Hin|Hin]; [discriminate|]. simpl. now apply IH.
  - exists e0. reflexivity.
Qed.

Lemma catalog_calls_discover (i : Instance) :
  Forall discovers (catalog_calls i).
Proof.
  unfold catalog_calls. destruct (_ =? _)%string; repeat constructor.
Qed.

Lemma process_page_emits (page : list (list Instance)) (all : list Alarm) :
  emits discovers (process_page W p alias sns region page all).
Proof.
  intros tr. rewrite process_page_eq.
  eexists. split; [reflexivity|].
  apply Forall_flat_map. apply Forall_forall. intros i _.
  apply catalog_calls_discover.
Qed.

(** A page with an instance whose catalog call fails raises. *)
Lemma process_page_raises (page : list (list Instance))
    (reservation : list Instance) (i : Instance) (e : exn)
    (all : list Alarm) (tr : list event) :
  In reservation page -> In i reservation ->
  platform_of i = "linux" ->
  list_metrics W "CWAgent"
    [ {| DimName := "InstanceId"; DimValue := InstanceId i |} ] = Raise e ->
  exists e', fst (process_page W p alias sns region page all tr) = Raise e'.
Proof.
  intros Hres Hi Hp Hfail. rewrite process_page_eq. cbn [fst].
  apply gather_raises with (e := e).
  apply in_map_iff. exists i. split.
  - unfold outcome. rewrite process_instance_linux by assumption.
    now rewrite Hfail.
  - apply in_concat. eauto.
Qed.

End Page.

Lemma for_pages_raises {A St} (call : nat -> event) (ps : list A)
    (fail : option exn) (body : A -> St -> M St) (page : A) :
  In page ps ->
  (forall s tr, exists e, fst (body page s tr) = Raise e) ->
  forall k s tr, exists e, fst (for_pages call ps fail k body s tr) = Raise e.
Proof.
  intros Hin Hbody. induction ps as [|page0 ps IH]; [contradiction|].
  intros k s tr. cbn [for_pages]. unfold bind, emit.
  destruct Hin as [->|Hin].
  - destruct (Hbody s (tr ++ [call k])) as [e He].
    destruct (body page s (tr ++ [call k])) as [[s'|e'] tr'];
      [discriminate|].
    exists e'. reflexivity.
  - destruct (body page0 s (tr ++ [call k])) as [[s'|e'] tr'].
    + apply IH. exact Hin.
    + exists e'. reflexivity.
Qed.

(** ** The orchestrator, stage by stage *)

Section Orchestrator.

Variable W : World.
Variables p tag region topic : string.
Variable ids : list string.
Variables tn tv : string.

Lemma paginate_emits (sel : selection) (alias sns : string)
    (all : list Alarm) :
  emits discovers
    (paginate_describe_instances W p sel alias sns region all).
Proof.
  unfold paginate_describe_instances. apply emits_for_pages.
  - intros k. exact I.
  - intros page s. apply process_page_emits.
Qed.

Lemma create_ec2_alarms_stages :
  run (create_ec2_alarms W p tag region topic ids tn tv) =
  match list_account_aliases W with
  | Raise e => (Raise e, [EvListAccountAliases])
  | Ok aliases =>
      match get_default aliases ["default-account"] with
      | [] =>
          (Raise (IndexError "list index out of range"),
           [EvListAccountAliases])
      | alias :: _ =>
          match get_sns_topic_arn W topic region [EvListAccountAliases] with
          | (Raise e, tr) => (Raise e, tr)
          | (Ok sns, tr) =>
              if list_falsy ids && (str_falsy tn || str_falsy tv)
              then
                (Raise (ValueError
                   "You must provide either instance_ids or both instance_tag_name and instance_tag_value."),
                 tr)
              else
                match paginate_describe_instances W p
                        (selection_of ids tn tv) alias sns region [] tr with
                | (Raise e, tr') => (Raise e, tr')
                | (Ok all, tr') =>
                    submit_in_batches W tag {| region_name := region |}
                      all tr'
                end
          end
      end
  end.
Proof.
  unfold run, create_ec2_alarms, iam_list_account_aliases.
  unfold bind at 1. unfold bind at 1. unfold emit, lift. cbn [app].
  destruct (list_account_aliases W) as [aliases|e]; [|reflexivity].
  unfold bind at 1.
  destruct (get_default aliases ["default-account"]) as [|alias rest];
    [reflexivity|].
  cbn [index0]. unfold ret at 1. unfold bind at 1.
  destruct (get_sns_topic_arn W topic region [EvListAccountAliases])
    as [[sns|e] tr]; [|reflexivity].
  destruct (list_falsy ids && (str_falsy tn || str_falsy tv));
    [reflexivity|].
  unfold bind at 1. unfold selection_of.
  destruct (list_falsy ids); reflexivity.
Qed.

End Orchestrator.

Ltac raised := eexists; reflexivity.

Lemma resolves_not_submits (e : event) : resolves e -> ~ submits e.
Proof. destruct e; simpl; tauto. Qed.

Lemma discovers_not_submits (e : event) : discovers e -> ~ submits e.
Proof. destruct e; simpl; tauto. Qed.

(** ** A failing catalog call *)

Lemma gather_all_ok (outcome : Instance -> result (list Alarm))
    (l : list Instance) (all : list Alarm) :
  (forall i, In i l -> exists alarms, outcome i = Ok alarms) ->
  gather (map outcome l) all =
  Ok (all ++ flat_map (fun i => emitted (outcome i)) l).
Proof.
  revert all. induction l as [|i l IH]; intros all H; cbn [map gather flat_map].
  - now rewrite app_nil_r.
  - destruct (H i (or_introl eq_refl)) as [alarms Hi]. rewrite Hi.
    cbn [emitted]. rewrite IH, app_assoc; [reflexivity|].
    intros j Hj. apply H. now right.
Qed.

Lemma outcome_ok (W : World) (p alias sns region : string) (i : Instance) :
  (platform_of i = "linux" ->
   exists metrics,
     list_metrics W "CWAgent"
       [ {| DimName := "InstanceId"; DimValue := InstanceId i |} ] =
     Ok metrics) ->
  exists alarms, outcome W p alias sns region i = Ok alarms.
Proof.
  intros Hm. unfold outcome.
  destruct (String.eqb_spec (platform_of i) "linux") as [Hl|Hl].
  - rewrite process_instance_linux by assumption.
    destruct (Hm Hl) as [metrics ->]. eexists. reflexivity.
  - destruct (String.eqb_spec (platform_of i) "windows") as [Hw|Hw].
    + rewrite process_instance_windows by assumption. eexists. reflexivity.
    + rewrite process_instance_other by assumption. eexists. reflexivity.
Qed.

Lemma valid_selection (ids : list string) (tn tv : string) :
  ids <> [] \/ (tn <> "" /\ tv <> "") ->
  list_falsy ids && (str_falsy tn || str_falsy tv) = false.
Proof.
  intros [Hids|[Htn Htv]].
  - destruct ids; [contradiction | reflexivity].
  - destruct tn; [contradiction|]. destruct tv; [contradiction|].
    apply andb_false_r.
Qed.

(** The result of the loop over the pages. *)
Lemma paginate_result (W : World) (p alias sns region : string)
    (sel : selection) (ps : list (list (list Instance)))
    (fail : option exn) (k : nat) (all : list Alarm) (tr : list event) :
  fst (for_pages (EvDescribeInstances sel) ps fail k
         (process_page W p alias sns region) all tr) =
  gather_pages (outcome W p alias sns region) ps fail all.
Proof.
  revert k all tr. induction ps as [|page ps IH]; intros k all tr;
    cbn [for_pages gather_pages].
  - now destruct fail.
  - unfold bind, emit. rewrite process_page_eq.
    destruct (gather _ all); [apply IH | reflexivity].
Qed.

Lemma gather_first_raise (outcome : Instance -> result (list Alarm))
    (before after : list Instance) (i : Instance) (e : exn)
    (all : list Alarm) :
  (forall j, In j before -> exists alarms, outcome j = Ok alarms) ->
  outcome i = Raise e ->
  gather (map outcome (before ++ i :: after)) all = Raise e.
Proof.
  revert all. induction before as [|j before IH]; intros all Hok Hi;
    cbn [app map gather].
  - now rewrite Hi.
  - destruct (Hok j (or_introl eq_refl)) as [alarms ->].
    apply IH; [|exact Hi]. intros j' Hj'. apply Hok. now right.
Qed.

(** The first worker that raises, in the order of discovery, decides
    what the loop over the pages raises. *)
Lemma gather_pages_first_raise (outcome : Instance -> result (list Alarm))
    (ps1 ps2 : list (list (list Instance))) (page : list (list Instance))
    (fail : option exn) (before after : list Instance) (i : Instance)
    (e : exn) (all : list Alarm) :
  concat page = before ++ i :: after ->
  (forall j, In j (concat (concat ps1) ++ before) ->
             exists alarms, outcome j = Ok alarms) ->
  outcome i = Raise e ->
  gather_pages outcome (ps1 ++ page :: ps2) fail all = Raise e.
Proof.
  intros Hpage Hok Hi. revert all Hok.
  induction ps1 as [|p0 ps1 IH]; intros all Hok; cbn [app gather_pages].
  - rewrite Hpage, gather_first_raise with (e := e); [reflexivity | | exact Hi].
    intros j Hj. apply Hok. exact Hj.
  - cbn [concat] in Hok. rewrite concat_app in Hok.
    rewrite gather_all_ok.
    + apply IH. intros j Hj. apply Hok. rewrite <- app_assoc.
      apply in_or_app. now right.
    + intros j Hj. apply Hok. apply in_or_app. left.
      apply in_or_app. now left.
Qed.

(** C1, as the code has it.  When the catalog call of a discovered
    linux instance fails, the processing of that instance raises the
    error and returns no definition at all; the workers of all the
    instances of its page still run, each making its catalog call, in
    the order the pool lets them; the error is raised again when the
    results are collected, so the run ends with an exception and
    without a single create or tag call.  When the lookups succeed, the
    selection is usable and no instance discovered before this one has
    a failing catalog call, the exception of the run is the error of
    the catalog call itself. *)
Theorem catalog_failure_aborts_run (W : World)
    (p tag region topic : string) (ids : list string) (tn tv : string)
    (page : list (list Instance)) (reservation : list Instance)
    (i : Instance) (e : exn) :
  In page (pages (describe_instances W (selection_of ids tn tv))) ->
  In reservation page ->
  In i reservation ->
  platform_of i = "linux" ->
  list_metrics W "CWAgent"
    [ {| DimName := "InstanceId"; DimValue := InstanceId i |} ] = Raise e ->
  (forall alias sns tr,
     process_instance W p i alias sns region tr =
     (Raise e,
      tr ++ [ EvListMetrics "CWAgent"
                [ {| DimName := "InstanceId";
                     DimValue := InstanceId i |} ] ])) /\
  (forall alias sns all tr,
     exists order,
       Permutation order (concat page) /\
       snd (process_page W p alias sns region page all tr) =
       tr ++ flat_map catalog_calls order) /\
  (exists e',
     fst (run (create_ec2_alarms W p tag region topic ids tn tv)) =
     Raise e') /\
  Forall (fun ev => ~ submits ev)
    (snd (run (create_ec2_alarms W p tag region topic ids tn tv))) /\
  (forall aliases alias rest sns tr1 ps1 ps2 before after,
     list_account_aliases W = Ok aliases ->
     get_default aliases ["default-account"] = alias :: rest ->
     get_sns_topic_arn W topic region [EvListAccountAliases] =
       (Ok sns, tr1) ->
     ids <> [] \/ (tn <> "" /\ tv <> "") ->
     pages (describe_instances W (selection_of ids tn tv)) =
       ps1 ++ page :: ps2 ->
     concat page = before ++ i :: after ->
     (forall j,
        In j (concat (concat ps1) ++ before) ->
        platform_of j = "linux" ->
        exists metrics,
          list_metrics W "CWAgent"
            [ {| DimName := "InstanceId"; DimValue := InstanceId j |} ] =
          Ok metrics) ->
     fst (run (create_ec2_alarms W p tag region topic ids tn tv)) =
     Raise e).
Proof.
  intros Hpage Hres Hi Hp Hfail. split; [|split; [|split; [|split]]].
  - intros alias sns tr. rewrite process_instance_linux by assumption.
    now rewrite Hfail.
  - intros alias sns all tr. exists (page_order W tr page).
    split; [apply page_order_permutation | now rewrite process_page_eq].
  - rewrite create_ec2_alarms_stages.
    destruct (list_account_aliases W) as [aliases|e0]; [|raised].
    destruct (get_default aliases ["default-account"]) as [|alias rest];
      [raised|].
    destruct (get_sns_topic_arn W topic region [EvListAccountAliases])
      as [[sns|e0] tr]; [|raised].
    destruct (list_falsy ids && (str_falsy tn || str_falsy tv)); [raised|].
    destruct (for_pages_raises
                (EvDescribeInstances (selection_of ids tn tv))
                (pages (describe_instances W (selection_of ids tn tv)))
                (failure (describe_instances W (selection_of ids tn tv)))
                (process_page W p alias sns region) page Hpage
                (fun s tr0 =>
                   process_page_raises W p alias sns region page
                     reservation i e s tr0 Hres Hi Hp Hfail)
                0 [] tr) as [e' He'].
    fold (paginate_describe_instances W p (selection_of ids tn tv)
            alias sns region []) in He'.
    destruct (paginate_describe_instances W p (selection_of ids tn tv)
                alias sns region [] tr) as [[all|e0] tr']; [discriminate|].
    raised.
  - rewrite create_ec2_alarms_stages.
    assert (H0 : Forall (fun ev => ~ submits ev) [EvListAccountAliases])
      by (repeat constructor; simpl; tauto).
    destruct (list_account_aliases W) as [aliases|e0]; [|exact H0].
    destruct (get_default aliases ["default-account"]) as [|alias rest];
      [exact H0|].
    destruct (get_sns_topic_arn_emits W topic region [EvListAccountAliases])
      as [ev [Htr Hev]].
    assert (H1 : Forall (fun ev => ~ submits ev)
                   ([EvListAccountAliases] ++ ev)).
    { apply Forall_app. split; [exact H0|].
      eapply Forall_impl; [apply resolves_not_submits | exact Hev]. }
    destruct (get_sns_topic_arn W topic region [EvListAccountAliases])
      as [[sns|e0] tr]; cbn [snd] in Htr; subst tr; [|exact H1].
    destruct (list_falsy ids && (str_falsy tn || str_falsy tv));
      [exact H1|].
    destruct (paginate_emits W p region (selection_of ids tn tv) alias sns
                [] ([EvListAccountAliases] ++ ev)) as [ev' [Htr' Hev']].
    destruct (for_pages_raises
                (EvDescribeInstances (selection_of ids tn tv))
                (pages (describe_instances W (selection_of ids tn tv)))
                (failure (describe_instances W (selection_of ids tn tv)))
                (process_page W p alias sns region) page Hpage
                (fun s tr0 =>
                   process_page_raises W p alias sns region page
                     reservation i e s tr0 Hres Hi Hp Hfail)
                0 [] ([EvListAccountAliases] ++ ev)) as [e' He'].
    fold (paginate_describe_instances W p (selection_of ids tn tv)
            alias sns region []) in He'.
    destruct (paginate_describe_instances W p (selection_of ids tn tv)
                alias sns region [] ([EvListAccountAliases] ++ ev))
      as [[all|e0] tr']; [discriminate|].
    cbn [snd] in Htr' |- *. subst tr'.
    apply Forall_app. split; [exact H1|].
    eapply Forall_impl; [apply discovers_not_submits | exact Hev'].
  - intros aliases alias rest sns tr1 ps1 ps2 before after
      Ha Hd Hs Hvalid Hpages Hsplit Hok.
    rewrite create_ec2_alarms_stages, Ha, Hd, Hs.
    rewrite (valid_selection ids tn tv Hvalid).
    pose proof (paginate_result W p alias sns region
                  (selection_of ids tn tv)
                  (pages (describe_instances W (selection_of ids tn tv)))
                  (failure (describe_instances W (selection_of ids tn tv)))
                  0 [] tr1) as Hres'.
    rewrite Hpages in Hres' at 2.
    rewrite (gather_pages_first_raise _ ps1 ps2 page _ before after i e)
      in Hres'.
    + fold (paginate_describe_instances W p (selection_of ids tn tv)
              alias sns region []) in Hres'.
      destruct (paginate_describe_instances W p (selection_of ids tn tv)
                  alias sns region [] tr1) as [r tr'].
      cbn [fst] in Hres'. now subst r.
    + exact Hsplit.
    + intros j Hj. apply outcome_ok. intros Hl. now apply Hok.
    + unfold outcome. rewrite process_instance_linux by assumption.
      now rewrite Hfail.
Qed.

Lemma catalog_failure_aborts_run_witness :
  fst (run (create_ec2_alarms acme_catalog_down "gl" "gl_monitoring"
              "us-east-1" "Infrastructure_Topic" [] "gl_env" "prod")) =
    Raise (ClientError "ListMetrics" "InternalServiceFault") /\
  Forall (fun ev => ~ submits ev)
    (snd (run (create_ec2_alarms acme_catalog_down "gl" "gl_monitoring"
                 "us-east-1" "Infrastructure_Topic" [] "gl_env" "prod"))).
Proof.
  destruct (catalog_failure_aborts_run acme_catalog_down "gl"
              "gl_monitoring" "us-east-1" "Infrastructure_Topic" []
              "gl_env" "prod" [ [web1; web2]; [db1] ] [web1; web2] web1
              (ClientError "ListMetrics" "InternalServiceFault")
              (or_introl eq_refl) (or_introl eq_refl) (or_introl eq_refl)
              eq_refl eq_refl)
    as [_ [_ [_ [Hquiet Hexact]]]].
  split; [|exact Hquiet].
  apply (Hexact (Some ["acme"]) "acme" []
           "arn:aws:sns:us-east-1:111122223333:Infrastructure_Topic"
           [EvListAccountAliases; EvListTopics 0; EvListTopics 1]
           [] [ [ [bsd1] ] ] [] [web2; db1]).
  - reflexivity.
  - reflexivity.
  - reflexivity.
  - right. split; discriminate.
  - reflexivity.
  - reflexivity.
  - intros j [].
Defined.

(** C1, as the claim has it, fails: in account acme with the catalog
    down for i-0a1 the run does not complete; it raises the catalog
    error and never submits an alarm of the sibling instances i-0a2 and
    i-0b1, although the worker of i-0a2 made its catalog call.  This is
    so whether the workers call in the order of submission or in the
    reverse order. *)
Lemma catalog_failure_terminates_run :
  (~ run_completes (main acme_catalog_down [] "gl_env" "prod") /\
   fst (main acme_catalog_down [] "gl_env" "prod") =
     Raise (ClientError "ListMetrics" "InternalServiceFault") /\
   In (EvListMetrics "CWAgent"
         [ {| DimName := "InstanceId"; DimValue := "i-0a2" |} ])
      (snd (main acme_catalog_down [] "gl_env" "prod")) /\
   put_attempts (snd (main acme_catalog_down [] "gl_env" "prod")) = []) /\
  (~ run_completes (main acme_catalog_down_reversed [] "gl_env" "prod") /\
   fst (main acme_catalog_down_reversed [] "gl_env" "prod") =
     Raise (ClientError "ListMetrics" "InternalServiceFault") /\
   In (EvListMetrics "CWAgent"
         [ {| DimName := "InstanceId"; DimValue := "i-0a2" |} ])
      (snd (main acme_catalog_down_reversed [] "gl_env" "prod")) /\
   put_attempts (snd (main acme_catalog_down_reversed [] "gl_env" "prod")) =
     []).
Proof.
  split; (split; [|split; [|split]]).
  - unfold run_completes. vm_compute. discriminate.
  - vm_compute. reflexivity.
  - vm_compute. do 5 right. now left.
  - vm_compute. reflexivity.
  - unfold run_completes. vm_compute. discriminate.
  - vm_compute. reflexivity.
  - vm_compute. do 4 right. now left.
  - vm_compute. reflexivity.
Qed.

(** ** Selection-mode validation *)

(** C2, as the code has it.  With an empty instance-id list and a tag
    pair that is not fully supplied the run always ends with an
    exception, and the only calls it makes are those of the alias
    lookup and of the topic resolution: no discovery, catalog, create
    or tag call.  When both lookups succeed the exception is the
    configuration error, raised after them. *)
Theorem invalid_selection_fails_before_discovery (W : World)
    (p tag region topic : string) (ids : list string) (tn tv : string) :
  ids = [] ->
  tn = "" \/ tv = "" ->
  (exists e,
     fst (run (create_ec2_alarms W p tag region topic ids tn tv)) =
     Raise e) /\
  Forall resolves
    (snd (run (create_ec2_alarms W p tag region topic ids tn tv))) /\
  (forall aliases alias rest sns tr,
     list_account_aliases W = Ok aliases ->
     get_default aliases ["default-account"] = alias :: rest ->
     get_sns_topic_arn W topic region [EvListAccountAliases] =
       (Ok sns, tr) ->
     run (create_ec2_alarms W p tag region topic ids tn tv) =
     (Raise (ValueError
        "You must provide either instance_ids or both instance_tag_name and instance_tag_value."),
      tr)).
Proof.
  intros Hids Htags.
  assert (Hcond : list_falsy ids && (str_falsy tn || str_falsy tv) = true).
  { subst ids. destruct Htags as [->| ->]; simpl;
      [reflexivity | apply orb_true_r]. }
  rewrite create_ec2_alarms_stages, Hcond.
  assert (H0 : Forall resolves [EvListAccountAliases])
    by (repeat constructor).
  split; [|split].
  - destruct (list_account_aliases W) as [aliases|e0]; [|raised].
    destruct (get_default aliases ["default-account"]); [raised|].
    destruct (get_sns_topic_arn W topic region [EvListAccountAliases])
      as [[sns|e0] tr]; raised.
  - destruct (list_account_aliases W) as [aliases|e0]; [|exact H0].
    destruct (get_default aliases ["default-account"]); [exact H0|].
    destruct (get_sns_topic_arn_emits W topic region [EvListAccountAliases])
      as [ev [Htr Hev]].
    destruct (get_sns_topic_arn W topic region [EvListAccountAliases])
      as [[sns|e0] tr]; cbn [snd] in Htr; subst tr; cbn [snd];
      apply Forall_app; split; assumption.
  - intros aliases alias rest sns tr Ha Hd Hs.
    rewrite Ha, Hd, Hs. reflexivity.
Qed.

Lemma invalid_selection_fails_before_discovery_witness :
  main acme [] "" "prod" =
  (Raise (ValueError
     "You must provide either instance_ids or both instance_tag_name and instance_tag_value."),
   [EvListAccountAliases; EvListTopics 0; EvListTopics 1]).
Proof.
  destruct (invalid_selection_fails_before_discovery acme "gl"
              "gl_monitoring" "us-east-1" "Infrastructure_Topic" [] "" "prod"
              eq_refl (or_introl eq_refl)) as [_ [_ Hrun]].
  apply (Hrun (Some ["acme"]) "acme" []
           "arn:aws:sns:us-east-1:111122223333:Infrastructure_Topic").
  - reflexivity.
  - reflexivity.
  - reflexivity.
Defined.

(** C2, as the claim has it, fails: with no instance id and no tag
    pair the run of account acme has already called the alias lookup
    and listed two pages of topics when it raises the configuration
    error. *)
Lemma invalid_selection_after_lookups :
  main acme [] "" "" =
  (Raise (ValueError
     "You must provide either instance_ids or both instance_tag_name and instance_tag_value."),
   [EvListAccountAliases; EvListTopics 0; EvListTopics 1]) /\
  snd (main acme [] "" "") <> [].
Proof.
  split; [vm_compute; reflexivity | vm_compute; discriminate].
Qed.

(** ** The account alias *)

(** C3 fails on the code.  The default alias is used only when the
    answer of the alias lookup has no list at all; the answer of an
    account without alias, an empty list, makes [[0]] raise IndexError
    and the run ends right after the lookup. *)
Theorem empty_alias_list_raises (W : World)
    (p tag region topic : string) (ids : list string) (tn tv : string) :
  list_account_aliases W = Ok (Some []) ->
  run (create_ec2_alarms W p tag region topic ids tn tv) =
  (Raise (IndexError "list index out of range"), [EvListAccountAliases]).
Proof.
  intros Hempty. rewrite create_ec2_alarms_stages, Hempty. reflexivity.
Qed.

Lemma empty_alias_list_raises_witness :
  main no_alias [] "gl_env" "prod" =
  (Raise (IndexError "list index out of range"), [EvListAccountAliases]).
Proof.
  apply (empty_alias_list_raises no_alias "gl" "gl_monitoring" "us-east-1"
           "Infrastructure_Topic" [] "gl_env" "prod").
  reflexivity.
Defined.

(** A response without the list does fall back on the default. *)
Lemma missing_alias_list_defaults (tr : list event) :
  index0 (get_default None ["default-account"]) tr =
  (Ok "default-account", tr).
Proof. reflexivity. Qed.

(** * More of the code *)

(** ** [get_sns_topic_arn] *)

Lemma prefix_app (n h : string) :
  String.prefix n h = true <-> exists post, h = (n ++ post)%string.
Proof.
  revert h. induction n as [|c n IH]; intros h.
  - split; [intros _; now exists h | intros _; now destruct h].
  - destruct h as [|c' h]; simpl.
    + split; [discriminate | intros [post H]; discriminate].
    + destruct (Ascii.ascii_dec c c') as [->|Hne].
      * rewrite IH. split; intros [post H]; exists post.
        -- now rewrite H.
        -- now injection H.
      * split; [discriminate|]. intros [post H]. injection H as Hc _.
        now elim Hne.
Qed.

(** X4. [needle in hay] holds exactly when the needle occurs somewhere
    in the hay: topics are matched by substring, not by equality. *)
Theorem contains_iff_substring (needle hay : string) :
  contains needle hay = true <->
  exists pre post, hay = (pre ++ needle ++ post)%string.
Proof.
  split.
  - induction hay as [|c hay IH]; cbn [contains]; intros H;
      apply orb_true_iff in H; destruct H as [H|H].
    + apply prefix_app in H. destruct H as [post H]. now exists "", post.
    + discriminate.
    + apply prefix_app in H. destruct H as [post H]. now exists "", post.
    + destruct (IH H) as [pre [post Hh]].
      exists (String c pre), post. simpl. now rewrite Hh.
  - intros [pre [post H]]. revert hay H.
    induction pre as [|c pre IH]; intros hay H.
    + assert (Hp : String.prefix needle hay = true)
        by (apply prefix_app; now exists post).
      destruct hay; cbn [contains]; now rewrite Hp.
    + subst hay. cbn [contains append].
      rewrite (IH _ eq_refl). apply orb_true_r.
Qed.

Lemma find_topic_some (name : string) (ts : list Topic) (arn : string) :
  find_topic name ts = Some arn ->
  exists before topic after,
    ts = before ++ topic :: after /\
    TopicArn topic = arn /\
    contains name arn = true /\
    Forall (no_match name) before.
Proof.
  induction ts as [|t ts IH]; cbn [find_topic]; [discriminate|].
  destruct (contains name (TopicArn t)) eqn:Ht.
  - intros H. injection H as <-. exists [], t, ts. now repeat split.
  - intros H. destruct (IH H) as [before [topic [after [-> [Ha [Hc Hb]]]]]].
    exists (t :: before), topic, after. repeat split; try assumption.
    now constructor.
Qed.

Lemma find_topic_none (name : string) (ts : list Topic) :
  find_topic name ts = None <-> Forall (no_match name) ts.
Proof.
  induction ts as [|t ts IH]; cbn [find_topic].
  - split; [constructor | reflexivity].
  - destruct (contains name (TopicArn t)) eqn:Ht.
    + split; [discriminate|]. intros H. inversion H as [|? ? Hn _].
      unfold no_match in Hn. congruence.
    + rewrite IH. split; [now constructor | now inversion 1].
Qed.

Lemma get_sns_topic_arn_scan (W : World) (name region : string)
    (tr : list event) :
  get_sns_topic_arn W name region tr =
  scan_topic_pages name region (pages (list_topics W))
    (failure (list_topics W)) 0 tr.
Proof.
  unfold get_sns_topic_arn, try_except, raise.
  now destruct (scan_topic_pages _ _ _ _ _ _) as [[arn|e] tr'].
Qed.

Lemma scan_topic_pages_some (name region : string)
    (ps : list (option (list Topic))) (fail : option exn) (k : nat)
    (tr tr' : list event) (arn : string) :
  scan_topic_pages name region ps fail k tr = (Ok arn, tr') ->
  exists j page before topic after,
    nth_error ps j = Some page /\
    get_default page [] = before ++ topic :: after /\
    TopicArn topic = arn /\
    contains name arn = true /\
    Forall (no_match name) (listed_topics (firstn j ps) ++ before) /\
    tr' = tr ++ map EvListTopics (seq k (S j)).
Proof.
  revert k tr. induction ps as [|page ps IH]; intros k tr;
    cbn [scan_topic_pages]; unfold bind, emit, raise, ret.
  - destruct fail; discriminate.
  - destruct (find_topic name (get_default page [])) as [arn0|] eqn:Hfind.
    + intros H. injection H as <- <-.
      destruct (find_topic_some _ _ _ Hfind)
        as [before [topic [after [Hts [Ha [Hc Hb]]]]]].
      exists 0, page, before, topic, after. now repeat split.
    + intros H.
      destruct (IH _ _ H)
        as [j [page' [before [topic [after [Hn [Hts [Ha [Hc [Hb Htr]]]]]]]]]].
      exists (S j), page', before, topic, after.
      repeat split; try assumption.
      * cbn [firstn listed_topics flat_map].
        rewrite <- app_assoc. apply Forall_app. split; [|exact Hb].
        now apply find_topic_none.
      * rewrite Htr, <- app_assoc. reflexivity.
Qed.

Lemma scan_topic_pages_finds (name region : string)
    (ps : list (option (list Topic))) (fail : option exn) (k : nat)
    (tr : list event) (t : Topic) :
  In t (listed_topics ps) ->
  contains name (TopicArn t) = true ->
  exists arn tr',
    scan_topic_pages name region ps fail k tr = (Ok arn, tr').
Proof.
  intros Hin Hc. revert k tr.
  induction ps as [|page ps IH]; intros k tr; [contradiction|].
  cbn [scan_topic_pages]. unfold bind, emit, ret.
  destruct (find_topic name (get_default page [])) as [arn0|] eqn:Hfind.
  - eauto.
  - cbn [listed_topics flat_map] in Hin. apply in_app_or in Hin.
    destruct Hin as [Hin|Hin].
    + apply find_topic_none in Hfind.
      rewrite Forall_forall in Hfind. specialize (Hfind t Hin).
      unfold no_match in Hfind. congruence.
    + now apply IH.
Qed.

Lemma scan_topic_pages_none (name region : string)
    (ps : list (option (list Topic))) (fail : option exn) (k : nat)
    (tr : list event) :
  Forall (no_match name) (listed_topics ps) ->
  scan_topic_pages name region ps fail k tr =
  (Raise match fail with
         | Some e => e
         | None => ValueError ("Topic '" ++ name ++
                               "' not found in region " ++ region)%string
         end,
   tr ++ map EvListTopics
           (seq k (length ps + match fail with Some _ => 1 | None => 0 end))).
Proof.
  revert k tr. induction ps as [|page ps IH]; intros k tr Hnone;
    cbn [scan_topic_pages]; unfold bind, emit, raise.
  - destruct fail; [reflexivity | now rewrite app_nil_r].
  - cbn [listed_topics flat_map] in Hnone.
    apply Forall_app in Hnone. destruct Hnone as [Hpage Hrest].
    apply find_topic_none in Hpage. rewrite Hpage.
    rewrite IH by exact Hrest. cbn [length Nat.add seq map].
    now rewrite <- app_assoc.
Qed.

(** X1. When [get_sns_topic_arn] returns, it returns the ARN of the
    first listed topic, in page order, whose ARN contains the name, and
    it has fetched the pages up to the one of that topic and no
    further. *)
Theorem get_sns_topic_arn_first_match (W : World) (name region : string)
    (tr tr' : list event) (arn : string) :
  get_sns_topic_arn W name region tr = (Ok arn, tr') ->
  exists j page before topic after,
    nth_error (pages (list_topics W)) j = Some page /\
    get_default page [] = before ++ topic :: after /\
    TopicArn topic = arn /\
    contains name arn = true /\
    Forall (no_match name)
      (listed_topics (firstn j (pages (list_topics W))) ++ before) /\
    tr' = tr ++ map EvListTopics (seq 0 (S j)).
Proof.
  rewrite get_sns_topic_arn_scan. apply scan_topic_pages_some.
Qed.

Lemma get_sns_topic_arn_first_match_witness :
  get_sns_topic_arn acme "Infrastructure_Topic" "us-east-1" [] =
    (Ok "arn:aws:sns:us-east-1:111122223333:Infrastructure_Topic",
     [EvListTopics 0; EvListTopics 1]) /\
  exists j page before topic after,
    nth_error (pages (list_topics acme)) j = Some page /\
    get_default page [] = before ++ topic :: after /\
    TopicArn topic =
      "arn:aws:sns:us-east-1:111122223333:Infrastructure_Topic" /\
    contains "Infrastructure_Topic"
      "arn:aws:sns:us-east-1:111122223333:Infrastructure_Topic" = true /\
    Forall (no_match "Infrastructure_Topic")
      (listed_topics (firstn j (pages (list_topics acme))) ++ before) /\
    [EvListTopics 0; EvListTopics 1] =
      [] ++ map EvListTopics (seq 0 (S j)).
Proof.
  split; [reflexivity|].
  apply (get_sns_topic_arn_first_match acme "Infrastructure_Topic"
           "us-east-1" []).
  reflexivity.
Defined.

(** X2. When some listed topic has an ARN that contains the name,
    [get_sns_topic_arn] returns, even if the listing would fail on a
    later page. *)
Theorem get_sns_topic_arn_finds (W : World) (name region : string)
    (tr : list event) (t : Topic) :
  In t (listed_topics (pages (list_topics W))) ->
  contains name (TopicArn t) = true ->
  exists arn tr', get_sns_topic_arn W name region tr = (Ok arn, tr').
Proof.
  intros Hin Hc.
  destruct (scan_topic_pages_finds name region (pages (list_topics W))
              (failure (list_topics W)) 0 tr t Hin Hc) as [arn [tr' H]].
  exists arn, tr'. now rewrite get_sns_topic_arn_scan.
Qed.

Lemma get_sns_topic_arn_finds_witness :
  exists arn tr',
    get_sns_topic_arn acme_topics_down "Bill" "us-east-1" [] =
    (Ok arn, tr').
Proof.
  apply (get_sns_topic_arn_finds acme_topics_down "Bill" "us-east-1" []
           {| TopicArn := "arn:aws:sns:us-east-1:111122223333:Billing" |}).
  - left. reflexivity.
  - reflexivity.
Defined.

(** X3. When no listed topic has an ARN that contains the name,
    [get_sns_topic_arn] raises after fetching every page: the error of
    the listing if it fails after its pages, and otherwise the
    ValueError that names the topic and the region. *)
Theorem get_sns_topic_arn_not_found (W : World) (name region : string)
    (tr : list event) :
  Forall (no_match name) (listed_topics (pages (list_topics W))) ->
  get_sns_topic_arn W name region tr =
  (Raise match failure (list_topics W) with
         | Some e => e
         | None => ValueError ("Topic '" ++ name ++
                               "' not found in region " ++ region)%string
         end,
   tr ++ map EvListTopics
           (seq 0 (length (pages (list_topics W)) +
                   match failure (list_topics W) with
                   | Some _ => 1
                   | None => 0
                   end))).
Proof.
  intros Hnone. rewrite get_sns_topic_arn_scan.
  now apply scan_topic_pages_none.
Qed.

Lemma get_sns_topic_arn_not_found_witness :
  get_sns_topic_arn acme "Ops" "us-east-1" [] =
    (Raise (ValueError "Topic 'Ops' not found in region us-east-1"),
     [EvListTopics 0; EvListTopics 1]) /\
  get_sns_topic_arn acme_topics_down "Ops" "us-east-1" [] =
    (Raise (ClientError "ListTopics" "InternalError"),
     [EvListTopics 0; EvListTopics 1]).
Proof.
  split.
  - apply (get_sns_topic_arn_not_found acme "Ops" "us-east-1" []).
    repeat constructor.
  - apply (get_sns_topic_arn_not_found acme_topics_down "Ops"
             "us-east-1" []).
    repeat constructor.
Defined.

(** ** [tag_alarm] and [create_cloudwatch_alarm_batch] *)

(** X5. [tag_alarm] never raises.  It asks STS for the caller on every
    call; when that fails it makes no tagging call, and otherwise it
    makes one, for the ARN built from the region of the client, the
    account and the alarm name, with the tags it was given, whose
    failure it swallows too. *)
Theorem tag_alarm_never_raises (W : World) (c : Client)
    (alarm : string) (tags : list Tag) (tr : list event) :
  exists ev,
    tag_alarm W c alarm tags tr = (Ok tt, tr ++ EvGetCallerIdentity :: ev) /\
    match get_caller_identity W tr with
    | Raise _ => ev = []
    | Ok account =>
        exists accepted,
          ev = [ EvTagResource
                   ("arn:aws:cloudwatch:" ++ region_name c ++ ":" ++
                    account ++ ":alarm:" ++ alarm)%string
                   tags accepted ] /\
          (accepted = true <->
           tag_resource W (tr ++ [EvGetCallerIdentity])
             ("arn:aws:cloudwatch:" ++ region_name c ++ ":" ++
              account ++ ":alarm:" ++ alarm)%string
             tags = None)
    end.
Proof.
  unfold tag_alarm, cloudwatch_tag_resource, sts_get_caller_identity,
    try_except, bind, history, emit, lift, raise, ret.
  destruct (get_caller_identity W tr) as [account|e].
  - destruct (tag_resource W _ _ _) as [e|] eqn:Htag.
    + eexists. rewrite <- app_assoc. split; [reflexivity|].
      exists false. split; [reflexivity|]. split; discriminate.
    + eexists. rewrite <- app_assoc. split; [reflexivity|].
      exists true. split; [reflexivity|]. now split.
  - exists []. now split.
Qed.

Lemma count_app (f : event -> bool) (tr1 tr2 : list event) :
  count f (tr1 ++ tr2) = count f tr1 + count f tr2.
Proof. unfold count. now rewrite filter_app, length_app. Qed.

Section BatchEvents.

Variable W : World.
Variable tag : string.
Variable c : Client.
Variable alarms : list Alarm.

(** What holds of the calls of each turn holds of the calls of the
    loop. *)
Lemma batch_events_ind (P : list event -> Prop) :
  P [] ->
  (forall a tr ev, In a alarms -> P ev ->
                   P (create_events W tag c a tr ++ ev)) ->
  forall l tr, incl l alarms ->
    exists ev,
      create_cloudwatch_alarm_batch W tag c l tr = (Ok tt, tr ++ ev) /\
      P ev.
Proof.
  intros Hnil Hturn. unfold create_cloudwatch_alarm_batch.
  induction l as [|a l IH]; intros tr Hincl.
  - exists []. rewrite app_nil_r. now split.
  - cbn [for_each]. unfold bind. rewrite create_and_tag_eq.
    destruct (IH (tr ++ create_events W tag c a tr)) as [ev [Hrun Hev]].
    { intros x Hx. apply Hincl. now right. }
    exists (create_events W tag c a tr ++ ev).
    rewrite Hrun, app_assoc. split; [reflexivity|].
    apply Hturn; [apply Hincl; now left | exact Hev].
Qed.

Lemma create_events_counts (a : Alarm) (tr : list event) :
  count is_identity_call (create_events W tag c a tr) =
    count is_accepted_put (create_events W tag c a tr) /\
  count is_tag_call (create_events W tag c a tr) <=
    count is_accepted_put (create_events W tag c a tr).
Proof.
  unfold create_events, tagging_events.
  destruct (put_metric_alarm W tr a); [split; reflexivity|].
  destruct (get_caller_identity W _); split; cbv; lia.
Qed.

Lemma create_events_well_tagged (a : Alarm) (tr : list event) :
  In a alarms ->
  Forall (well_tagged tag c alarms) (create_events W tag c a tr).
Proof.
  intros Hin. unfold create_events, tagging_events.
  destruct (put_metric_alarm W tr a); [repeat constructor|].
  destruct (get_caller_identity W _) as [account|e];
    repeat constructor.
  cbn [well_tagged]. now exists a, account,
    (utcnow_date W (tr ++ [EvPutMetricAlarm a true])).
Qed.

End BatchEvents.

(** X6. In the calls of [create_cloudwatch_alarm_batch] there is one
    STS identity call for every accepted create call, and at most one
    tagging call for every accepted create call. *)
Theorem identity_call_per_created_alarm (W : World) (tag : string)
    (c : Client) (alarms : list Alarm) (tr : list event) :
  exists ev,
    create_cloudwatch_alarm_batch W tag c alarms tr = (Ok tt, tr ++ ev) /\
    count is_identity_call ev = count is_accepted_put ev /\
    count is_tag_call ev <= count is_accepted_put ev.
Proof.
  apply (batch_events_ind W tag c alarms
           (fun ev => count is_identity_call ev = count is_accepted_put ev /\
                      count is_tag_call ev <= count is_accepted_put ev)).
  - split; [reflexivity | apply Nat.le_refl].
  - intros a tr0 ev _ [Hid Htag]. rewrite !count_app.
    destruct (create_events_counts W tag c a tr0) as [Hid0 Htag0]. lia.
  - apply incl_refl.
Qed.

(** X7. Every tagging call of [create_cloudwatch_alarm_batch] names an
    alarm of the list, by
    arn:aws:cloudwatch:region:account:alarm:name, and carries exactly
    one tag, whose key is [alarm_tag]. *)
Theorem tag_calls_carry_provenance (W : World) (tag : string)
    (c : Client) (alarms : list Alarm) (tr : list event) :
  exists ev,
    create_cloudwatch_alarm_batch W tag c alarms tr = (Ok tt, tr ++ ev) /\
    Forall (well_tagged tag c alarms) ev.
Proof.
  apply (batch_events_ind W tag c alarms
           (Forall (well_tagged tag c alarms))).
  - constructor.
  - intros a tr0 ev Hin Hev. apply Forall_app. split; [|exact Hev].
    now apply create_events_well_tagged.
  - apply incl_refl.
Qed.

(** X8. Batching cannot be observed: submitting a list in batches of
    ten makes the same calls with the same result as one call of
    [create_cloudwatch_alarm_batch] on the whole list, and a batch of
    two lists is the batch of the first followed by the batch of the
    second. *)
Theorem batching_is_unobservable (W : World) (tag : string)
    (c : Client) (l1 l2 : list Alarm) (tr : list event) :
  submit_in_batches W tag c l1 tr =
    create_cloudwatch_alarm_batch W tag c l1 tr /\
  create_cloudwatch_alarm_batch W tag c (l1 ++ l2) tr =
    (create_cloudwatch_alarm_batch W tag c l1 ;;;
     create_cloudwatch_alarm_batch W tag c l2) tr.
Proof.
  split; [apply submit_in_batches_flat|].
  unfold create_cloudwatch_alarm_batch. apply for_each_app.
Qed.

(** ** [process_instance] *)

Section SampleAlarms.

Variables p sns alias name : string.

(** Where an alarm of a sample comes from. *)
Lemma sample_alarm_inv (m : MetricSample) (a : Alarm) :
  In a (sample_alarms p sns alias name m) ->
  MetricName a = SampleMetricName m /\
  Dimensions a = SampleDimensions m /\
  Namespace a = "CWAgent" /\
  Threshold a = 95%Z /\
  ComparisonOperator a = "GreaterThanOrEqualToThreshold" /\
  ((SampleMetricName m = "mem_used_percent" /\
    AlarmName a = alarm_name p alias name "mem-used") \/
   (SampleMetricName m = "disk_used_percent" /\ has_root_path m /\
    AlarmName a = alarm_name p alias name "disk-used")).
Proof.
  rewrite sample_alarms_eq. intros Hin.
  apply in_app_or in Hin. destruct Hin as [Hin|Hin].
  - destruct (String.eqb_spec (SampleMetricName m) "mem_used_percent")
      as [Hm|Hm]; [|contradiction].
    destruct Hin as [<-|[]]. repeat split. left. now split.
  - destruct (String.eqb_spec (SampleMetricName m) "disk_used_percent")
      as [Hd|Hd]; [|contradiction].
    apply in_flat_map in Hin. destruct Hin as [d [Hd_in Ha]].
    rewrite dimension_alarms_eq in Ha.
    destruct (String.eqb_spec (DimName d) "path") as [Hn|Hn];
      destruct (String.eqb_spec (DimValue d) "/") as [Hv|Hv];
      simpl in Ha; try contradiction.
    destruct Ha as [<-|[]]. repeat split. right.
    split; [assumption|]. split; [|reflexivity]. exists d. auto.
Qed.

Lemma sample_gives_mem_alarm (m : MetricSample) :
  SampleMetricName m = "mem_used_percent" ->
  exists a, In a (sample_alarms p sns alias name m) /\
            AlarmName a = alarm_name p alias name "mem-used".
Proof.
  intros Hm.
  exists (base_alarm sns (alarm_name p alias name "mem-used")
            (SampleMetricName m) "CWAgent" (SampleDimensions m) 95
            "GreaterThanOrEqualToThreshold").
  split; [|reflexivity].
  rewrite sample_alarms_eq. apply in_or_app. left.
  apply String.eqb_eq in Hm. rewrite Hm. now left.
Qed.

Lemma memory_sample_alarms (m : MetricSample) :
  SampleMetricName m = "mem_used_percent" ->
  map AlarmName (sample_alarms p sns alias name m) =
  [alarm_name p alias name "mem-used"].
Proof.
  intros Hm. rewrite sample_alarms_eq, Hm. reflexivity.
Qed.

Lemma dimension_alarms_length (mn : string) (ds dims : list Dimension) :
  length (flat_map (dimension_alarms p sns alias name mn ds) dims) =
  length (filter is_root_path dims).
Proof.
  induction dims as [|d dims IH]; [reflexivity|].
  cbn [flat_map filter]. rewrite length_app, IH, dimension_alarms_eq.
  unfold is_root_path. now destruct (_ && _).
Qed.

Lemma sample_alarms_length (m : MetricSample) :
  length (sample_alarms p sns alias name m) = sample_alarm_count m.
Proof.
  rewrite sample_alarms_eq, length_app. unfold sample_alarm_count.
  f_equal.
  - now destruct (_ =? _)%string.
  - destruct (_ =? _)%string; [apply dimension_alarms_length|reflexivity].
Qed.

Lemma samples_alarms_length (ms : list MetricSample) :
  length (flat_map (sample_alarms p sns alias name) ms) =
  list_sum (map sample_alarm_count ms).
Proof.
  induction ms as [|m ms IH]; [reflexivity|].
  cbn [flat_map map list_sum].
  now rewrite length_app, IH, sample_alarms_length.
Qed.

Lemma sample_alarms_shared (m : MetricSample) :
  Forall (shared_parameters sns) (sample_alarms p sns alias name m).
Proof.
  apply Forall_forall. intros a Hin. rewrite sample_alarms_eq in Hin.
  apply in_app_or in Hin. destruct Hin as [Hin|Hin].
  - destruct (_ =? _)%string; [|contradiction].
    destruct Hin as [<-|[]]. now repeat split.
  - destruct (_ =? _)%string; [|contradiction].
    apply in_flat_map in Hin. destruct Hin as [d [_ Ha]].
    rewrite dimension_alarms_eq in Ha.
    destruct (_ && _); [|contradiction].
    destruct Ha as [<-|[]]. now repeat split.
Qed.

End SampleAlarms.

(** X9. For every linux instance a mem-used alarm definition is
    emitted if and only if the catalog returns a sample named
    mem_used_percent. *)
Theorem linux_mem_alarm_iff_sample (W : World)
    (p alias sns region : string) (i : Instance) (tr : list event) :
  platform_of i = "linux" ->
  (exists a,
     In a (emitted (fst (process_instance W p i alias sns region tr))) /\
     AlarmName a = alarm_name p alias (instance_name_of i) "mem-used")
  <->
  (exists m,
     In m (catalog_samples W (InstanceId i)) /\
     SampleMetricName m = "mem_used_percent").
Proof.
  intros Hp. rewrite process_instance_linux by assumption.
  unfold catalog_samples. cbn [fst].
  destruct (list_metrics W _ _) as [metrics|e]; cbn [emitted].
  - split.
    + intros [a [Hin Hname]]. apply in_app_or in Hin.
      destruct Hin as [Hin|Hin].
      * exfalso. unfold baseline in Hin.
        destruct Hin as [<-|[<-|[]]]; simpl in Hname;
          apply alarm_name_suffix_inj in Hname; discriminate.
      * apply in_flat_map in Hin. destruct Hin as [m [Hm Ha]].
        exists m. split; [assumption|].
        apply sample_alarm_inv in Ha.
        destruct Ha as [_ [_ [_ [_ [_ [[Hmem _]|[_ [_ Hdisk]]]]]]]];
          [assumption|].
        rewrite Hdisk in Hname.
        apply alarm_name_suffix_inj in Hname. discriminate.
    + intros [m [Hm Hmem]].
      destruct (sample_gives_mem_alarm p sns alias (instance_name_of i)
                  m Hmem) as [a [Ha Hname]].
      exists a. split; [|assumption].
      apply in_or_app. right. apply in_flat_map. eauto.
  - split.
    + intros [a [[] _]].
    + intros [m [[] _]].
Qed.

Lemma linux_mem_alarm_iff_sample_witness :
  platform_of web1 = "linux" /\
  exists a,
    In a (emitted (fst (process_instance acme "gl" web1 "acme"
                          "arn:topic" "us-east-1" []))) /\
    AlarmName a = alarm_name "gl" "acme" (instance_name_of web1) "mem-used".
Proof.
  assert (Hp : platform_of web1 = "linux") by reflexivity.
  split; [exact Hp|].
  apply (linux_mem_alarm_iff_sample acme "gl" "acme" "arn:topic"
           "us-east-1" web1 [] Hp).
  exists memory. split; [now left | reflexivity].
Defined.

(** X10. For a linux instance whose catalog call answers, the rule
    engine returns two definitions plus one for every sample named
    mem_used_percent plus one for every path=/ dimension of every
    sample named disk_used_percent. *)
Theorem linux_alarm_count (W : World) (p alias sns region : string)
    (i : Instance) (tr : list event)
    (metrics : option (list MetricSample)) :
  platform_of i = "linux" ->
  list_metrics W "CWAgent"
    [ {| DimName := "InstanceId"; DimValue := InstanceId i |} ] =
    Ok metrics ->
  exists alarms,
    fst (process_instance W p i alias sns region tr) = Ok alarms /\
    length alarms =
      2 + list_sum (map sample_alarm_count (get_default metrics [])).
Proof.
  intros Hp Hm. rewrite process_instance_linux by assumption. rewrite Hm.
  eexists. split; [reflexivity|].
  now rewrite length_app, samples_alarms_length.
Qed.

Lemma linux_alarm_count_witness :
  exists alarms,
    fst (process_instance acme "gl" web1 "acme" "arn:topic"
           "us-east-1" []) = Ok alarms /\
    length alarms =
      2 + list_sum (map sample_alarm_count [memory; root_disk]).
Proof.
  apply (linux_alarm_count acme "gl" "acme" "arn:topic" "us-east-1" web1 []
           (Some [memory; root_disk])); reflexivity.
Defined.

(** X11. When the catalog of a linux instance returns two samples
    named mem_used_percent, the rule engine emits two definitions under
    the one mem-used name: the names of its result repeat. *)
Theorem duplicate_samples_duplicate_names (W : World)
    (p alias sns region : string) (i : Instance) (tr : list event)
    (metrics : option (list MetricSample))
    (l1 l2 l3 : list MetricSample) (m1 m2 : MetricSample) :
  platform_of i = "linux" ->
  list_metrics W "CWAgent"
    [ {| DimName := "InstanceId"; DimValue := InstanceId i |} ] =
    Ok metrics ->
  get_default metrics [] = l1 ++ m1 :: l2 ++ m2 :: l3 ->
  SampleMetricName m1 = "mem_used_percent" ->
  SampleMetricName m2 = "mem_used_percent" ->
  ~ NoDup (map AlarmName
             (emitted (fst (process_instance W p i alias sns region tr)))).
Proof.
  intros Hp Hm Hsplit Hm1 Hm2.
  rewrite process_instance_linux by assumption. rewrite Hm, Hsplit.
  cbn [fst emitted].
  rewrite map_app, !flat_map_app. cbn [flat_map].
  rewrite !flat_map_app. cbn [flat_map].
  rewrite !map_app, !memory_sample_alarms by assumption.
  rewrite app_assoc. cbn [app].
  intros Hnodup. apply NoDup_remove_2 in Hnodup. apply Hnodup.
  apply in_or_app. right. apply in_or_app. right. now left.
Qed.

Lemma duplicate_samples_duplicate_names_witness :
  ~ NoDup (map AlarmName
             (emitted (fst (process_instance acme_two_memories "gl" web1
                              "acme" "arn:topic" "us-east-1" [])))).
Proof.
  apply (duplicate_samples_duplicate_names acme_two_memories "gl" "acme"
           "arn:topic" "us-east-1" web1 []
           (Some [memory; memory_by_image]) [] [] [] memory
           memory_by_image); reflexivity.
Defined.

(** X12. Every definition the rule engine emits, on every platform,
    has actions enabled, the topic as its only alarm action and its
    only OK action, the statistic Average, a period of 60 seconds, 5
    evaluation periods, and missing data treated as breaching. *)
Theorem shared_alarm_parameters (W : World) (p alias sns region : string)
    (i : Instance) (tr : list event) :
  Forall (shared_parameters sns)
    (emitted (fst (process_instance W p i alias sns region tr))).
Proof.
  assert (Hbase : Forall (shared_parameters sns) (baseline p sns alias i))
    by (unfold baseline; repeat constructor).
  destruct (String.eqb_spec (platform_of i) "linux") as [Hl|Hl].
  - rewrite process_instance_linux by assumption. cbn [fst].
    destruct (list_metrics W _ _) as [metrics|e]; cbn [emitted];
      [|constructor].
    apply Forall_app. split; [exact Hbase|].
    apply Forall_flat_map. apply Forall_forall. intros m _.
    apply sample_alarms_shared.
  - destruct (String.eqb_spec (platform_of i) "windows") as [Hw|Hw].
    + rewrite process_instance_windows by assumption.
      cbn [fst emitted]. apply Forall_app. split; [exact Hbase|].
      repeat constructor.
    + now rewrite process_instance_other by assumption.
Qed.

(** X13. Whenever the rule engine returns, its first two definitions
    are the status-check alarm on StatusCheckFailed with threshold 1
    and the cpu-used alarm on CPUUtilization with threshold 95, both in
    namespace AWS/EC2, with the operator >= and the instance id as
    their only dimension. *)
Theorem baseline_alarms_first (W : World) (p alias sns region : string)
    (i : Instance) (tr : list event) (alarms : list Alarm) :
  fst (process_instance W p i alias sns region tr) = Ok alarms ->
  exists status cpu rest,
    alarms = status :: cpu :: rest /\
    MetricName status = "StatusCheckFailed" /\
    Threshold status = 1%Z /\
    MetricName cpu = "CPUUtilization" /\
    Threshold cpu = 95%Z /\
    Forall (fun a =>
              Namespace a = "AWS/EC2" /\
              ComparisonOperator a = "GreaterThanOrEqualToThreshold" /\
              Dimensions a =
                [ {| DimName := "InstanceId";
                     DimValue := InstanceId i |} ])
      [status; cpu].
Proof.
  assert (Hbase : forall rest,
    alarms = baseline p sns alias i ++ rest ->
    exists status cpu rest,
      alarms = status :: cpu :: rest /\
      MetricName status = "StatusCheckFailed" /\
      Threshold status = 1%Z /\
      MetricName cpu = "CPUUtilization" /\
      Threshold cpu = 95%Z /\
      Forall (fun a =>
                Namespace a = "AWS/EC2" /\
                ComparisonOperator a = "GreaterThanOrEqualToThreshold" /\
                Dimensions a =
                  [ {| DimName := "InstanceId";
                       DimValue := InstanceId i |} ])
        [status; cpu]).
  { intros rest ->. unfold baseline. do 3 eexists.
    split; [reflexivity|]. repeat split; repeat constructor. }
  destruct (String.eqb_spec (platform_of i) "linux") as [Hl|Hl].
  - rewrite process_instance_linux by assumption. cbn [fst].
    destruct (list_metrics W _ _) as [metrics|e]; [|discriminate].
    intros H. injection H as <-. eapply Hbase. reflexivity.
  - destruct (String.eqb_spec (platform_of i) "windows") as [Hw|Hw].
    + rewrite process_instance_windows by assumption.
      intros H. injection H as <-. eapply Hbase. reflexivity.
    + rewrite process_instance_other by assumption.
      intros H. injection H as <-. apply (Hbase []).
      now rewrite app_nil_r.
Qed.

Lemma baseline_alarms_first_witness :
  exists status cpu rest,
    emitted (fst (process_instance acme "gl" db1 "acme" "arn:topic"
                    "us-east-1" [])) = status :: cpu :: rest /\
    MetricName status = "StatusCheckFailed" /\
    MetricName cpu = "CPUUtilization".
Proof.
  destruct (baseline_alarms_first acme "gl" "acme" "arn:topic" "us-east-1"
              db1 [] _ eq_refl)
    as [status [cpu [rest [Heq [Hs [_ [Hc _]]]]]]].
  exists status, cpu, rest. split; [exact Heq | now split].
Defined.

(** X14. The rule engine raises exactly when the instance is a linux
    one and its catalog call fails, and then it raises the error of
    that call. *)
Theorem process_instance_raises_iff (W : World)
    (p alias sns region : string) (i : Instance) (tr : list event)
    (e : exn) :
  fst (process_instance W p i alias sns region tr) = Raise e <->
  platform_of i = "linux" /\
  list_metrics W "CWAgent"
    [ {| DimName := "InstanceId"; DimValue := InstanceId i |} ] = Raise e.
Proof.
  destruct (String.eqb_spec (platform_of i) "linux") as [Hl|Hl].
  - rewrite process_instance_linux by assumption. cbn [fst].
    destruct (list_metrics W _ _) as [metrics|e0].
    + split; [discriminate | intros [_ H]; discriminate].
    + split; [intros H | intros [_ H]]; now injection H as ->.
  - split; [|intros [H _]; contradiction].
    destruct (String.eqb_spec (platform_of i) "windows") as [Hw|Hw].
    + now rewrite process_instance_windows by assumption.
    + now rewrite process_instance_other by assumption.
Qed.

Lemma name_tag_first (before after : list Tag) (t : Tag) :
  TagKey t = "Name" ->
  (forall t', In t' before -> TagKey t' <> "Name") ->
  name_tag (before ++ t :: after) = TagValue t.
Proof.
  intros Ht. induction before as [|t0 before IH]; intros Hb; cbn [app name_tag].
  - apply String.eqb_eq in Ht. now rewrite Ht.
  - assert (H0 : TagKey t0 <> "Name") by (apply Hb; now left).
    apply String.eqb_neq in H0. rewrite H0.
    apply IH. intros t' Hin. apply Hb. now right.
Qed.

Lemma name_tag_missing (tags : list Tag) :
  (forall t, In t tags -> TagKey t <> "Name") ->
  name_tag tags = "UnnamedInstance".
Proof.
  induction tags as [|t0 tags IH]; intros H; cbn [name_tag]; [reflexivity|].
  assert (H0 : TagKey t0 <> "Name") by (apply H; now left).
  apply String.eqb_neq in H0. rewrite H0.
  apply IH. intros t Hin. apply H. now right.
Qed.

(** X15. The display name of an instance is the value of its first
    tag with the key Name, whatever that value and whatever follows;
    with no such tag, or with no tags at all, it is UnnamedInstance. *)
Theorem instance_name_first_name_tag (i : Instance) :
  (forall before t after,
     Tags i = Some (before ++ t :: after) ->
     TagKey t = "Name" ->
     (forall t', In t' before -> TagKey t' <> "Name") ->
     instance_name_of i = TagValue t) /\
  ((forall t, In t (get_default (Tags i) []) -> TagKey t <> "Name") ->
   instance_name_of i = "UnnamedInstance").
Proof.
  unfold instance_name_of. split.
  - intros before t after Htags Ht Hb. rewrite Htags.
    now apply name_tag_first.
  - apply name_tag_missing.
Qed.

Lemma instance_name_first_name_tag_witness :
  instance_name_of web1 = "web1" /\
  instance_name_of bsd1 = "UnnamedInstance".
Proof.
  destruct (instance_name_first_name_tag web1) as [Hfirst _].
  destruct (instance_name_first_name_tag bsd1) as [_ Hnone].
  split.
  - apply (Hfirst [ {| TagKey := "gl_env"; TagValue := "prod" |} ]
             {| TagKey := "Name"; TagValue := "web1" |} []).
    + reflexivity.
    + reflexivity.
    + intros t' [<-|[]]. discriminate.
  - apply Hnone. intros t [].
Defined.

(** X16. The rule engine calls the catalog exactly once, for the
    namespace CWAgent and the id of the instance, when the platform is
    linux, and not at all otherwise; an instance without a platform is
    a linux one. *)
Theorem catalog_call_iff_linux (W : World) (p alias sns region : string)
    (i : Instance) (tr : list event) :
  (platform_of i = "linux" ->
   snd (process_instance W p i alias sns region tr) =
   tr ++ [ EvListMetrics "CWAgent"
             [ {| DimName := "InstanceId";
                  DimValue := InstanceId i |} ] ]) /\
  (platform_of i <> "linux" ->
   snd (process_instance W p i alias sns region tr) = tr) /\
  (Platform i = None -> platform_of i = "linux").
Proof.
  split; [|split].
  - intros Hl. now rewrite process_instance_linux.
  - intros Hl. rewrite process_instance_trace. unfold catalog_calls.
    apply String.eqb_neq in Hl. rewrite Hl. apply app_nil_r.
  - intros Hnone. unfold platform_of. now rewrite Hnone.
Qed.

Lemma catalog_call_iff_linux_witness :
  snd (process_instance acme "gl" web1 "acme" "arn:topic" "us-east-1" []) =
    [] ++ [ EvListMetrics "CWAgent"
              [ {| DimName := "InstanceId";
                   DimValue := InstanceId web1 |} ] ] /\
  snd (process_instance acme "gl" db1 "acme" "arn:topic" "us-east-1" []) =
    [].
Proof.
  destruct (catalog_call_iff_linux acme "gl" "acme" "arn:topic" "us-east-1"
              web1 []) as [Hcall [_ Hdefault]].
  destruct (catalog_call_iff_linux acme "gl" "acme" "arn:topic" "us-east-1"
              db1 []) as [_ [Hnone _]].
  split.
  - apply Hcall. apply Hdefault. reflexivity.
  - apply Hnone. vm_compute. discriminate.
Defined.

(** X17. Every definition a linux instance gets beyond the two
    baseline ones copies a sample of its catalog: the metric name and
    the whole dimension list of the sample, in namespace CWAgent with
    threshold 95 and the operator >=; the sample is named
    mem_used_percent, or disk_used_percent with a path=/ dimension. *)
Theorem linux_optional_alarms_copy_sample (W : World)
    (p alias sns region : string) (i : Instance) (tr : list event)
    (a : Alarm) :
  platform_of i = "linux" ->
  In a (emitted (fst (process_instance W p i alias sns region tr))) ->
  In a (baseline p sns alias i) \/
  exists m,
    In m (catalog_samples W (InstanceId i)) /\
    MetricName a = SampleMetricName m /\
    Dimensions a = SampleDimensions m /\
    Namespace a = "CWAgent" /\
    Threshold a = 95%Z /\
    ComparisonOperator a = "GreaterThanOrEqualToThreshold" /\
    (SampleMetricName m = "mem_used_percent" \/
     (SampleMetricName m = "disk_used_percent" /\ has_root_path m)).
Proof.
  intros Hp. rewrite process_instance_linux by assumption.
  unfold catalog_samples. cbn [fst].
  destruct (list_metrics W _ _) as [metrics|e]; cbn [emitted];
    [|contradiction].
  intros Hin. apply in_app_or in Hin. destruct Hin as [Hin|Hin];
    [now left|]. right.
  apply in_flat_map in Hin. destruct Hin as [m [Hm Ha]].
  apply sample_alarm_inv in Ha.
  destruct Ha as [Hn [Hd [Hns [Ht [Hop Hkind]]]]].
  exists m. repeat (split; [assumption|]).
  destruct Hkind as [[Hmem _]|[Hdisk [Hroot _]]]; [now left | right; auto].
Qed.

Lemma linux_optional_alarms_copy_sample_witness :
  In (base_alarm "arn:topic" "gl_acme_ec2_web1_disk-used"
        "disk_used_percent" "CWAgent" (SampleDimensions root_disk) 95
        "GreaterThanOrEqualToThreshold")
     (baseline "gl" "arn:topic" "acme" web1) \/
  exists m,
    In m (catalog_samples acme (InstanceId web1)) /\
    "disk_used_percent" = SampleMetricName m /\
    SampleDimensions root_disk = SampleDimensions m /\
    "CWAgent" = "CWAgent" /\
    95%Z = 95%Z /\
    "GreaterThanOrEqualToThreshold" = "GreaterThanOrEqualToThreshold" /\
    (SampleMetricName m = "mem_used_percent" \/
     (SampleMetricName m = "disk_used_percent" /\ has_root_path m)).
Proof.
  apply (linux_optional_alarms_copy_sample acme "gl" "acme" "arn:topic"
           "us-east-1" web1 []
           (base_alarm "arn:topic" "gl_acme_ec2_web1_disk-used"
              "disk_used_percent" "CWAgent" (SampleDimensions root_disk) 95
              "GreaterThanOrEqualToThreshold")).
  - reflexivity.
  - vm_compute. do 3 right. now left.
Defined.

(** ** [create_ec2_alarms] *)

Lemma create_events_submits (W : World) (tag : string) (c : Client)
    (a : Alarm) (tr : list event) :
  Forall submits (create_events W tag c a tr).
Proof.
  unfold create_events, tagging_events.
  destruct (put_metric_alarm W tr a); [repeat constructor|].
  destruct (get_caller_identity W _); repeat constructor.
Qed.

(** The submission returns, with create and tag calls only, one create
    call for every definition. *)
Lemma submission_events (W : World) (tag : string) (c : Client)
    (all : list Alarm) (tr : list event) :
  exists ev,
    submit_in_batches W tag c all tr = (Ok tt, tr ++ ev) /\
    Forall submits ev /\
    put_attempts ev = all.
Proof.
  rewrite submit_in_batches_flat.
  destruct (batch_turns W tag c all tr) as [ev [Hrun [Hputs _]]].
  destruct (batch_events_ind W tag c all (Forall submits)
              (Forall_nil _)
              (fun a tr0 ev0 _ Hev0 =>
                 proj2 (Forall_app _ _ _)
                   (conj (create_events_submits W tag c a tr0) Hev0))
              all tr (incl_refl _)) as [ev' [Hrun' Hev']].
  rewrite Hrun in Hrun'. injection Hrun' as Heq.
  apply app_inv_head in Heq. subst ev'.
  exists ev. now repeat split.
Qed.

Lemma gather_pages_ext (f g : Instance -> result (list Alarm))
    (ps : list (list (list Instance))) (fail : option exn)
    (all : list Alarm) :
  (forall i, f i = g i) ->
  gather_pages f ps fail all = gather_pages g ps fail all.
Proof.
  intros Hfg. revert all. induction ps as [|page ps IH]; intros all;
    cbn [gather_pages]; [reflexivity|].
  rewrite (map_ext f g Hfg).
  destruct (gather _ all); [apply IH | reflexivity].
Qed.

Lemma outcome_ext (W W' : World) (p alias sns region : string)
    (i : Instance) :
  (forall ns d, list_metrics W ns d = list_metrics W' ns d) ->
  outcome W p alias sns region i = outcome W' p alias sns region i.
Proof.
  intros Hm. unfold outcome.
  destruct (String.eqb_spec (platform_of i) "linux") as [Hl|Hl].
  - rewrite !process_instance_linux by assumption. now rewrite Hm.
  - destruct (String.eqb_spec (platform_of i) "windows") as [Hw|Hw].
    + now rewrite !process_instance_windows.
    + now rewrite !process_instance_other.
Qed.

Section Discovery.

Variable W : World.
Variables p alias sns region : string.
Variable sel : selection.

(** The loop over the pages when every worker returns. *)
Lemma paginate_all_ok (ps : list (list (list Instance)))
    (fail : option exn) (k : nat) (all : list Alarm) (tr : list event) :
  (forall i, In i (concat (concat ps)) ->
             exists alarms, outcome W p alias sns region i = Ok alarms) ->
  exists d,
    discovery_trace sel k ps d /\
    for_pages (EvDescribeInstances sel) ps fail k
      (process_page W p alias sns region) all tr =
    (match fail with
     | Some e => Raise e
     | None =>
         Ok (all ++ flat_map
                      (fun i => emitted (outcome W p alias sns region i))
                      (concat (concat ps)))
     end,
     tr ++ d ++
     match fail with
     | Some _ => [EvDescribeInstances sel (k + length ps)]
     | None => []
     end).
Proof.
  revert k all tr. induction ps as [|page ps IH]; intros k all tr Hok;
    cbn [for_pages discovery_trace].
  - exists []. split; [reflexivity|].
    destruct fail; cbn [length concat flat_map app].
    + now rewrite Nat.add_0_r.
    + unfold ret. now rewrite !app_nil_r.
  - unfold bind, emit. rewrite process_page_eq.
    cbn [concat] in Hok. rewrite concat_app in Hok.
    rewrite gather_all_ok
      by (intros i Hi; apply Hok; apply in_or_app; now left).
    destruct (IH (S k)
                (all ++ flat_map
                          (fun i => emitted (outcome W p alias sns region i))
                          (concat page))
                ((tr ++ [EvDescribeInstances sel k]) ++
                 flat_map catalog_calls
                   (page_order W (tr ++ [EvDescribeInstances sel k]) page)))
      as [d' [Hd' Hrun]].
    { intros i Hi. apply Hok. apply in_or_app. now right. }
    exists (EvDescribeInstances sel k ::
            flat_map catalog_calls
              (page_order W (tr ++ [EvDescribeInstances sel k]) page) ++ d').
    split.
    + exists (page_order W (tr ++ [EvDescribeInstances sel k]) page), d'.
      split; [apply page_order_permutation|]. now split.
    + rewrite Hrun. cbn [concat length]. rewrite concat_app, flat_map_app.
      rewrite Nat.add_succ_r. cbn [Nat.add].
      f_equal.
      * destruct fail; [reflexivity|]. now rewrite app_assoc.
      * rewrite <- !app_assoc. cbn [app]. now rewrite <- !app_assoc.
Qed.

Lemma paginate_emits_sel (all : list Alarm) :
  emits (fun e => discovers e /\ describes_with sel e)
    (paginate_describe_instances W p sel alias sns region all).
Proof.
  unfold paginate_describe_instances. apply emits_for_pages.
  - intros k. now split.
  - intros page s tr. rewrite process_page_eq.
    eexists. split; [reflexivity|].
    apply Forall_flat_map. apply Forall_forall. intros i _.
    unfold catalog_calls. destruct (_ =? _)%string; repeat constructor.
Qed.

End Discovery.

(** The calls of a run: lookups, then discovery with the one
    selection, then submission, which a raising run never reaches. *)
Lemma run_shape (W : World) (p tag region topic : string)
    (ids : list string) (tn tv : string) :
  exists r d s,
    snd (run (create_ec2_alarms W p tag region topic ids tn tv)) =
      r ++ d ++ s /\
    Forall resolves r /\
    Forall (fun e => discovers e /\
                     describes_with (selection_of ids tn tv) e) d /\
    Forall submits s /\
    (forall e,
       fst (run (create_ec2_alarms W p tag region topic ids tn tv)) =
       Raise e -> s = []).
Proof.
  rewrite create_ec2_alarms_stages.
  assert (H0 : Forall resolves [EvListAccountAliases])
    by (repeat constructor).
  assert (Hearly : forall (res : result unit) r d,
            Forall resolves r ->
            Forall (fun e => discovers e /\
                             describes_with (selection_of ids tn tv) e) d ->
            exists r' d' s,
              snd (res, r ++ d) = r' ++ d' ++ s /\
              Forall resolves r' /\
              Forall (fun e => discovers e /\
                               describes_with (selection_of ids tn tv) e)
                d' /\
              Forall submits s /\
              (forall e, fst (res, r ++ d) = Raise e -> s = [])).
  { intros res r d Hr Hd. exists r, d, [].
    rewrite app_nil_r. split; [reflexivity|].
    split; [exact Hr|]. split; [exact Hd|].
    split; [constructor | reflexivity]. }
  destruct (list_account_aliases W) as [aliases|e0].
  2:{ rewrite <- (app_nil_r [EvListAccountAliases]).
      apply Hearly; [exact H0 | constructor]. }
  destruct (get_default aliases ["default-account"]) as [|alias rest].
  { rewrite <- (app_nil_r [EvListAccountAliases]).
    apply Hearly; [exact H0 | constructor]. }
  destruct (get_sns_topic_arn_emits W topic region [EvListAccountAliases])
    as [ev [Htr Hev]].
  destruct (get_sns_topic_arn W topic region [EvListAccountAliases])
    as [[sns|e0] tr]; cbn [snd] in Htr; subst tr.
  2:{ rewrite <- (app_nil_r ([EvListAccountAliases] ++ ev)).
      apply Hearly; [apply Forall_app; now split | constructor]. }
  assert (H1 : Forall resolves ([EvListAccountAliases] ++ ev))
    by (apply Forall_app; now split).
  destruct (list_falsy ids && (str_falsy tn || str_falsy tv)).
  { rewrite <- (app_nil_r ([EvListAccountAliases] ++ ev)).
    apply Hearly; [exact H1 | constructor]. }
  destruct (paginate_emits_sel W p alias sns region (selection_of ids tn tv)
              [] ([EvListAccountAliases] ++ ev)) as [ev' [Htr' Hev']].
  destruct (paginate_describe_instances W p (selection_of ids tn tv)
              alias sns region [] ([EvListAccountAliases] ++ ev))
    as [[all|e0] tr']; cbn [snd] in Htr'; subst tr'.
  2:{ apply Hearly; assumption. }
  destruct (submission_events W tag {| region_name := region |} all
              (([EvListAccountAliases] ++ ev) ++ ev'))
    as [ev'' [Hrun [Hsub _]]].
  rewrite Hrun. cbn [fst snd].
  exists ([EvListAccountAliases] ++ ev), ev', ev''.
  rewrite <- app_assoc. split; [reflexivity|].
  split; [exact H1|]. split; [exact Hev'|]. split; [exact Hsub|].
  discriminate.
Qed.

(** X18. The calls of every run come in three phases that never mix:
    first the alias and topic lookups, then the discovery calls
    (instance pages and metric catalogs), then the create and tag
    calls. *)
Theorem run_phases (W : World) (p tag region topic : string)
    (ids : list string) (tn tv : string) :
  exists r d s,
    snd (run (create_ec2_alarms W p tag region topic ids tn tv)) =
      r ++ d ++ s /\
    Forall resolves r /\ Forall discovers d /\ Forall submits s.
Proof.
  destruct (run_shape W p tag region topic ids tn tv)
    as [r [d [s [Htr [Hr [Hd [Hs _]]]]]]].
  exists r, d, s. repeat split; try assumption.
  eapply Forall_impl; [|exact Hd]. now intros e [He _].
Qed.

(** X19. A run that ends with an exception has made no create and no
    tag call: alarms are submitted only after every page has been
    discovered and every worker has returned. *)
Theorem failed_run_submits_nothing (W : World)
    (p tag region topic : string) (ids : list string) (tn tv : string)
    (e : exn) :
  fst (run (create_ec2_alarms W p tag region topic ids tn tv)) = Raise e ->
  Forall (fun ev => ~ submits ev)
    (snd (run (create_ec2_alarms W p tag region topic ids tn tv))).
Proof.
  intros Hraise.
  destruct (run_shape W p tag region topic ids tn tv)
    as [r [d [s [Htr [Hr [Hd [_ Hs]]]]]]].
  rewrite Htr, (Hs e Hraise), app_nil_r. apply Forall_app. split.
  - eapply Forall_impl; [apply resolves_not_submits | exact Hr].
  - eapply Forall_impl; [|exact Hd].
    intros ev [Hev _]. now apply discovers_not_submits.
Qed.

Lemma failed_run_submits_nothing_witness :
  Forall (fun ev => ~ submits ev)
    (snd (run (create_ec2_alarms acme_throttled "gl" "gl_monitoring"
                 "us-east-1" "Infrastructure_Topic" ["i-0a2"] "" ""))).
Proof.
  apply (failed_run_submits_nothing acme_throttled "gl" "gl_monitoring"
           "us-east-1" "Infrastructure_Topic" ["i-0a2"] "" ""
           (ClientError "DescribeInstances" "RequestLimitExceeded")).
  reflexivity.
Defined.

(** X20. When the lookups succeed, the selection is usable, the
    discovery lists its pages without error and every catalog call
    answers, the run completes: after the lookups it fetches page after
    page, the catalog calls of the linux instances of a page following
    its fetch in the order the pool lets them, and then it calls create
    once for every definition derived for every discovered instance, in
    the order of discovery. *)
Theorem completed_run_submits_every_alarm (W : World)
    (p tag region topic : string) (ids : list string) (tn tv : string)
    (aliases : option (list string)) (alias : string) (rest : list string)
    (sns : string) (tr1 : list event) :
  list_account_aliases W = Ok aliases ->
  get_default aliases ["default-account"] = alias :: rest ->
  get_sns_topic_arn W topic region [EvListAccountAliases] = (Ok sns, tr1) ->
  ids <> [] \/ (tn <> "" /\ tv <> "") ->
  failure (describe_instances W (selection_of ids tn tv)) = None ->
  (forall i,
     In i (discovered W (selection_of ids tn tv)) ->
     platform_of i = "linux" ->
     exists metrics,
       list_metrics W "CWAgent"
         [ {| DimName := "InstanceId"; DimValue := InstanceId i |} ] =
       Ok metrics) ->
  exists d ev,
    run (create_ec2_alarms W p tag region topic ids tn tv) =
      (Ok tt, tr1 ++ d ++ ev) /\
    discovery_trace (selection_of ids tn tv) 0
      (pages (describe_instances W (selection_of ids tn tv))) d /\
    Forall submits ev /\
    put_attempts ev =
      flat_map
        (fun i =>
           emitted (fst (process_instance W p i alias sns region [])))
        (discovered W (selection_of ids tn tv)).
Proof.
  intros Ha Hd Hs Hvalid Hfail Hok.
  rewrite create_ec2_alarms_stages, Ha, Hd, Hs.
  rewrite (valid_selection ids tn tv Hvalid).
  unfold paginate_describe_instances.
  destruct (paginate_all_ok W p alias sns region (selection_of ids tn tv)
              (pages (describe_instances W (selection_of ids tn tv)))
              (failure (describe_instances W (selection_of ids tn tv)))
              0 [] tr1) as [d [Hdisc Hrun]].
  { intros i Hi. apply outcome_ok. intros Hl. now apply Hok. }
  rewrite Hrun, Hfail.
  destruct (submission_events W tag {| region_name := region |}
              ([] ++ flat_map
                       (fun i => emitted (outcome W p alias sns region i))
                       (concat (concat
                          (pages (describe_instances W
                                    (selection_of ids tn tv))))))
              (tr1 ++ d ++ []))
    as [ev [Hsubmit [Hsub Hputs]]].
  exists d, ev. rewrite Hsubmit, app_nil_r, <- app_assoc.
  split; [reflexivity|]. split; [exact Hdisc|].
  split; [exact Hsub | exact Hputs].
Qed.

Lemma completed_run_submits_every_alarm_witness :
  exists d ev,
    main acme [] "gl_env" "prod" =
      (Ok tt,
       [EvListAccountAliases; EvListTopics 0; EvListTopics 1] ++ d ++ ev) /\
    discovery_trace (Filters "tag:gl_env" ["prod"]) 0
      [ [ [web1; web2]; [db1] ]; [ [bsd1] ] ] d /\
    Forall submits ev /\
    put_attempts ev =
      flat_map
        (fun i =>
           emitted (fst (process_instance acme "gl" i "acme"
                           "arn:aws:sns:us-east-1:111122223333:Infrastructure_Topic"
                           "us-east-1" [])))
        [web1; web2; db1; bsd1].
Proof.
  apply (completed_run_submits_every_alarm acme "gl" "gl_monitoring"
           "us-east-1" "Infrastructure_Topic" [] "gl_env" "prod"
           (Some ["acme"]) "acme" []
           "arn:aws:sns:us-east-1:111122223333:Infrastructure_Topic"
           [EvListAccountAliases; EvListTopics 0; EvListTopics 1]).
  - reflexivity.
  - reflexivity.
  - reflexivity.
  - right. split; discriminate.
  - reflexivity.
  - intros i Hi _. cbn in Hi.
    destruct Hi as [<-|[<-|[<-|[<-|[]]]]]; eexists; reflexivity.
Defined.

(** X21. Every discovery call of a run is made with one selection:
    the instance ids when the list is not empty, whatever the tag pair,
    and otherwise the filter tag:name with the one value. *)
Theorem instance_ids_take_precedence (W : World)
    (p tag region topic : string) (ids : list string) (tn tv : string) :
  (ids <> [] ->
   Forall (describes_with (InstanceIds ids))
     (snd (run (create_ec2_alarms W p tag region topic ids tn tv)))) /\
  (ids = [] ->
   Forall (describes_with (Filters ("tag:" ++ tn)%string [tv]))
     (snd (run (create_ec2_alarms W p tag region topic ids tn tv)))).
Proof.
  assert (Hall : Forall (describes_with (selection_of ids tn tv))
            (snd (run (create_ec2_alarms W p tag region topic ids tn tv)))).
  { destruct (run_shape W p tag region topic ids tn tv)
      as [r [d [s [Htr [Hr [Hd [Hs _]]]]]]].
    rewrite Htr. apply Forall_app. split; [|apply Forall_app; split].
    - eapply Forall_impl; [|exact Hr]. now intros [] He.
    - eapply Forall_impl; [|exact Hd]. now intros e [_ He].
    - eapply Forall_impl; [|exact Hs]. now intros [] He. }
  split; intros Hids.
  - destruct ids; [contradiction | exact Hall].
  - subst ids. exact Hall.
Qed.

Lemma instance_ids_take_precedence_witness :
  Forall (describes_with (InstanceIds ["i-0a1"]))
    (snd (run (create_ec2_alarms acme "gl" "gl_monitoring" "us-east-1"
                 "Infrastructure_Topic" ["i-0a1"] "gl_env" "prod"))).
Proof.
  destruct (instance_ids_take_precedence acme "gl" "gl_monitoring"
              "us-east-1" "Infrastructure_Topic" ["i-0a1"] "gl_env" "prod")
    as [Hids _].
  apply Hids. discriminate.
Defined.

(** X22. The lookups come before the check of the selection: a failed
    alias lookup ends the run with its error after that one call, and a
    failed topic resolution ends the run with its error after the topic
    pages, whether the selection is usable or not. *)
Theorem lookup_errors_precede_validation (W : World)
    (p tag region topic : string) (ids : list string) (tn tv : string) :
  (forall e,
     list_account_aliases W = Raise e ->
     run (create_ec2_alarms W p tag region topic ids tn tv) =
     (Raise e, [EvListAccountAliases])) /\
  (forall aliases alias rest e tr,
     list_account_aliases W = Ok aliases ->
     get_default aliases ["default-account"] = alias :: rest ->
     get_sns_topic_arn W topic region [EvListAccountAliases] =
       (Raise e, tr) ->
     run (create_ec2_alarms W p tag region topic ids tn tv) =
     (Raise e, tr)).
Proof.
  split.
  - intros e Ha. now rewrite create_ec2_alarms_stages, Ha.
  - intros aliases alias rest e tr Ha Hd Hs.
    now rewrite create_ec2_alarms_stages, Ha, Hd, Hs.
Qed.

Lemma lookup_errors_precede_validation_witness :
  run (create_ec2_alarms acme "gl" "gl_monitoring" "us-east-1" "Ops"
         [] "" "") =
  (Raise (ValueError "Topic 'Ops' not found in region us-east-1"),
   [EvListAccountAliases; EvListTopics 0; EvListTopics 1]).
Proof.
  destruct (lookup_errors_precede_validation acme "gl" "gl_monitoring"
              "us-east-1" "Ops" [] "" "") as [_ Htopic].
  apply (Htopic (Some ["acme"]) "acme" []); reflexivity.
Defined.

(** X23. When the discovery fails after its pages, with every catalog
    call answering, the run ends with the error of the discovery right
    after the failed fetch, which follows the fetches of the pages and
    the catalog calls of their instances: the definitions derived from
    the pages it did get are never submitted. *)
Theorem discovery_failure_discards_alarms (W : World)
    (p tag region topic : string) (ids : list string) (tn tv : string)
    (aliases : option (list string)) (alias : string) (rest : list string)
    (sns : string) (tr1 : list event) (e : exn) :
  list_account_aliases W = Ok aliases ->
  get_default aliases ["default-account"] = alias :: rest ->
  get_sns_topic_arn W topic region [EvListAccountAliases] = (Ok sns, tr1) ->
  ids <> [] \/ (tn <> "" /\ tv <> "") ->
  failure (describe_instances W (selection_of ids tn tv)) = Some e ->
  (forall i,
     In i (discovered W (selection_of ids tn tv)) ->
     platform_of i = "linux" ->
     exists metrics,
       list_metrics W "CWAgent"
         [ {| DimName := "InstanceId"; DimValue := InstanceId i |} ] =
       Ok metrics) ->
  exists d,
    run (create_ec2_alarms W p tag region topic ids tn tv) =
      (Raise e,
       tr1 ++ d ++
       [ EvDescribeInstances (selection_of ids tn tv)
           (length (pages (describe_instances W
                             (selection_of ids tn tv)))) ]) /\
    discovery_trace (selection_of ids tn tv) 0
      (pages (describe_instances W (selection_of ids tn tv))) d.
Proof.
  intros Ha Hd Hs Hvalid Hfail Hok.
  rewrite create_ec2_alarms_stages, Ha, Hd, Hs.
  rewrite (valid_selection ids tn tv Hvalid).
  unfold paginate_describe_instances.
  destruct (paginate_all_ok W p alias sns region (selection_of ids tn tv)
              (pages (describe_instances W (selection_of ids tn tv)))
              (failure (describe_instances W (selection_of ids tn tv)))
              0 [] tr1) as [d [Hdisc Hrun]].
  { intros i Hi. apply outcome_ok. intros Hl. now apply Hok. }
  exists d. rewrite Hrun, Hfail. now split.
Qed.

Lemma discovery_failure_discards_alarms_witness :
  exists d,
    run (create_ec2_alarms acme_throttled "gl" "gl_monitoring" "us-east-1"
           "Infrastructure_Topic" ["i-0a2"; "i-0b1"] "" "") =
      (Raise (ClientError "DescribeInstances" "RequestLimitExceeded"),
       [EvListAccountAliases; EvListTopics 0; EvListTopics 1] ++ d ++
       [ EvDescribeInstances (InstanceIds ["i-0a2"; "i-0b1"]) 1 ]) /\
    discovery_trace (InstanceIds ["i-0a2"; "i-0b1"]) 0
      [ [ [web2]; [db1] ] ] d.
Proof.
  apply (discovery_failure_discards_alarms acme_throttled "gl"
           "gl_monitoring" "us-east-1" "Infrastructure_Topic"
           ["i-0a2"; "i-0b1"] "" "" (Some ["acme"]) "acme" []
           "arn:aws:sns:us-east-1:111122223333:Infrastructure_Topic"
           [EvListAccountAliases; EvListTopics 0; EvListTopics 1]).
  - reflexivity.
  - reflexivity.
  - reflexivity.
  - left. discriminate.
  - reflexivity.
  - intros i Hi _. cbn in Hi.
    destruct Hi as [<-|[<-|[]]]; eexists; reflexivity.
Defined.

(** X24. Whether a run completes or raises, and what it raises, is
    decided by the lookups, the discovery and the catalog alone: two
    worlds that answer those alike end the run alike, however they
    answer the create, identity and tag calls. *)
Theorem submission_failures_never_surface (W W' : World)
    (p tag region topic : string) (ids : list string) (tn tv : string) :
  list_account_aliases W = list_account_aliases W' ->
  list_topics W = list_topics W' ->
  (forall sel, describe_instances W sel = describe_instances W' sel) ->
  (forall ns d, list_metrics W ns d = list_metrics W' ns d) ->
  fst (run (create_ec2_alarms W p tag region topic ids tn tv)) =
  fst (run (create_ec2_alarms W' p tag region topic ids tn tv)).
Proof.
  intros Ha Ht Hd Hm. rewrite !create_ec2_alarms_stages, <- Ha.
  destruct (list_account_aliases W) as [aliases|e0]; [|reflexivity].
  destruct (get_default aliases ["default-account"]) as [|alias rest];
    [reflexivity|].
  rewrite !get_sns_topic_arn_scan, <- Ht.
  destruct (scan_topic_pages topic region _ _ 0 [EvListAccountAliases])
    as [[sns|e0] tr]; [|reflexivity].
  destruct (list_falsy ids && (str_falsy tn || str_falsy tv));
    [reflexivity|].
  unfold paginate_describe_instances. rewrite <- !Hd.
  pose proof (paginate_result W p alias sns region (selection_of ids tn tv)
                (pages (describe_instances W (selection_of ids tn tv)))
                (failure (describe_instances W (selection_of ids tn tv)))
                0 [] tr) as HW.
  pose proof (paginate_result W' p alias sns region (selection_of ids tn tv)
                (pages (describe_instances W (selection_of ids tn tv)))
                (failure (describe_instances W (selection_of ids tn tv)))
                0 [] tr) as HW'.
  rewrite (gather_pages_ext (outcome W' p alias sns region)
             (outcome W p alias sns region)) in HW'
    by (intros i; symmetry; now apply outcome_ext).
  destruct (for_pages _ _ _ 0 (process_page W p alias sns region) [] tr)
    as [r1 tr1].
  destruct (for_pages _ _ _ 0 (process_page W' p alias sns region) [] tr)
    as [r2 tr2].
  cbn [fst] in HW, HW'. rewrite <- HW' in HW. subst r2.
  destruct r1 as [all|e0]; [|reflexivity].
  destruct (submission_events W tag {| region_name := region |} all tr1)
    as [ev1 [-> _]].
  destruct (submission_events W' tag {| region_name := region |} all tr2)
    as [ev2 [-> _]].
  reflexivity.
Qed.

Lemma submission_failures_never_surface_witness :
  fst (main acme [] "gl_env" "prod") =
  fst (main acme_flaky [] "gl_env" "prod").
Proof.
  apply (submission_failures_never_surface acme acme_flaky "gl"
           "gl_monitoring" "us-east-1" "Infrastructure_Topic" []
           "gl_env" "prod"); reflexivity.
Defined.

(** ** [__main__] *)

(** X25. The script as shipped never ends with an exception, whatever
    the services answer: its handler takes every error of the run.  It
    makes the calls of the run and no other, and every discovery call
    it makes filters on the tag gl_env with the value prod. *)
Theorem script_main_never_raises (W : World) :
  fst (run (script_main W)) = Ok tt /\
  snd (run (script_main W)) = snd (main W [] "gl_env" "prod") /\
  Forall (describes_with (Filters "tag:gl_env" ["prod"]))
    (snd (run (script_main W))).
Proof.
  assert (Hsame : snd (run (script_main W)) =
                  snd (main W [] "gl_env" "prod")).
  { unfold main, run, script_main, try_except, ret.
    now destruct (create_ec2_alarms _ _ _ _ _ _ _ _ _) as [[[]|e] tr]. }
  split; [|split; [exact Hsame|]].
  - unfold run, script_main, try_except, ret.
    now destruct (create_ec2_alarms _ _ _ _ _ _ _ _ _) as [[[]|e] tr].
  - rewrite Hsame. unfold main.
    destruct (run_shape W "gl" "gl_monitoring" "us-east-1"
                "Infrastructure_Topic" [] "gl_env" "prod")
      as [r [d [s [Htr [Hr [Hd [Hs _]]]]]]].
    rewrite Htr. apply Forall_app. split; [|apply Forall_app; split].
    + eapply Forall_impl; [|exact Hr]. now intros [] He.
    + eapply Forall_impl; [|exact Hd]. now intros e [_ He].
    + eapply Forall_impl; [|exact Hs]. now intros [] He.
Qed.
